(** * Playtime accounting of gobot: a shallow embedding and its properties

    The development follows the Go sources: the bolt-backed counter
    ([PlayingUser.SaveGametime], [TimeCounter.StartGametime],
    [TimeCounter.EndGametime], [TimeCounter.GetUserGametime],
    [TimeCounter.Snapshot], [TimeCounter.Close]) and the older in-memory
    [countPlaytime] of gobot/main.go.

    Library code the program calls (encoding/binary, time, bolt) is modelled
    by its documented behaviour, in the modules [binary], [time] and [bolt]. *)

From Stdlib Require Import ZArith Lia DecimalString DecimalZ DecimalPos.
From stdpp Require Import gmap strings list fin_maps.
From coqutil Require Import Byte.

Local Open Scope Z_scope.

(** ** Machine integers

    Go's [uint64] and [int64] are modelled as [Z] with the wrap-around
    written out. *)

Definition uint64 (z : Z) : Z := z mod 2 ^ 64.

Definition int64 (z : Z) : Z := (z + 2 ^ 63) mod 2 ^ 64 - 2 ^ 63.

Definition minInt64 : Z := - 2 ^ 63.
Definition maxInt64 : Z := 2 ^ 63 - 1.

Definition in_int64 (z : Z) : Prop := minInt64 <= z <= maxInt64.

(** [make([]byte, n)]: a zeroed buffer. *)
Definition make (n : nat) : list byte := repeat Byte.x00 n.

(** ** encoding/binary: the varint codec *)

Module binary.

Definition MaxVarintLen64 : Z := 10.

(** [PutUvarint(buf, x)], started at index [i] with [buf] the part of the
    buffer from that index on.  Writing past the end of the buffer is the
    run-time panic of Go, here [None].
<<
    i := 0
    for x >= 0x80 { buf[i] = byte(x) | 0x80; x >>= 7; i++ }
    buf[i] = byte(x)
    return i + 1
>> *)
Fixpoint PutUvarint_at (buf : list byte) (x i : Z) : option (list byte * Z) :=
  match buf with
  | [] => None
  | _ :: rest =>
      if 0x80 <=? x then
        match PutUvarint_at rest (Z.shiftr x 7) (i + 1) with
        | Some (rest', n) =>
            Some (byte.of_Z (Z.lor (byte.unsigned (byte.of_Z x)) 0x80) :: rest', n)
        | None => None
        end
      else Some (byte.of_Z x :: rest, i + 1)
  end.

Definition PutUvarint (buf : list byte) (x : Z) : option (list byte * Z) :=
  PutUvarint_at buf x 0.

(** [PutVarint(buf, x)]: zig-zag, then [PutUvarint].
<<
    ux := uint64(x) << 1
    if x < 0 { ux = ^ux }
    return PutUvarint(buf, ux)
>> *)
Definition PutVarint (buf : list byte) (x : Z) : option (list byte * Z) :=
  let ux := uint64 (Z.shiftl (uint64 x) 1) in
  let ux := if x <? 0 then uint64 (Z.lnot ux) else ux in
  PutUvarint buf ux.

(** [Uvarint(buf)]: the loop [for i, b := range buf], with the accumulator
    [x], the shift [s] and the index [i].
<<
    for i, b := range buf {
      if i == MaxVarintLen64 { return 0, -(i + 1) }
      if b < 0x80 {
        if i == MaxVarintLen64-1 && b > 1 { return 0, -(i + 1) }
        return x | uint64(b)<<s, i + 1
      }
      x |= uint64(b&0x7f) << s
      s += 7
    }
    return 0, 0
>> *)
Fixpoint Uvarint_loop (buf : list byte) (x s i : Z) : Z * Z :=
  match buf with
  | [] => (0, 0)
  | b :: rest =>
      let b := byte.unsigned b in
      if i =? MaxVarintLen64 then (0, - (i + 1))
      else if b <? 0x80 then
        if (i =? MaxVarintLen64 - 1) && (1 <? b) then (0, - (i + 1))
        else (Z.lor x (uint64 (Z.shiftl b s)), i + 1)
      else
        Uvarint_loop rest (Z.lor x (uint64 (Z.shiftl (Z.land b 0x7f) s)))
                     (s + 7) (i + 1)
  end.

Definition Uvarint (buf : list byte) : Z * Z := Uvarint_loop buf 0 0 0.

(** [Varint(buf)]: the value is computed also when [Uvarint] reports an
    error ("ok to continue in presence of error").
<<
    ux, n := Uvarint(buf)
    x := int64(ux >> 1)
    if ux&1 != 0 { x = ^x }
    return x, n
>> *)
Definition Varint (buf : list byte) : Z * Z :=
  let '(ux, n) := Uvarint buf in
  let x := int64 (Z.shiftr ux 1) in
  let x := if negb (Z.land ux 1 =? 0) then int64 (Z.lnot x) else x in
  (x, n).

End binary.

(** The stored form of a total: the varint of [n] in a zeroed buffer of
    [MaxVarintLen64] bytes, as both branches of [SaveGametime] build it. *)
Definition encode_played (n : Z) : option (list byte) :=
  fst <$> binary.PutVarint (make (Z.to_nat binary.MaxVarintLen64)) n.

(** ** errors

    The error values the program can see: the ones bolt returns, the one
    [GetUserGametime] builds with [errors.New], and the run-time panic of an
    index out of range. *)

Inductive error : Type :=
  | ErrDatabaseNotOpen
  | ErrTxNotWritable
  | ErrBucketNameRequired
  | ErrKeyRequired
  | ErrKeyTooLarge
  | ErrValueTooLarge
  | errors_New (text : string)
  | panic_index_out_of_range.

(** ** time

    An instant is a count of nanoseconds on the time line of the clock; a
    [Duration] is an [int64] count of nanoseconds.  [Add] is exact on that
    time line and [Sub] saturates, as the package documents: "If the result
    exceeds the maximum (or minimum) value that can be stored in a Duration,
    the maximum (or minimum) duration will be returned." *)

Module time.

Abbreviation Time := Z (only parsing).
Abbreviation Duration := Z (only parsing).

Definition minDuration : Duration := minInt64.
Definition maxDuration : Duration := maxInt64.

Definition saturate (z : Z) : Duration :=
  if z <? minDuration then minDuration
  else if maxDuration <? z then maxDuration
  else z.

Definition Add (t : Time) (d : Duration) : Time := t + d.

Definition Sub (t u : Time) : Duration := saturate (t - u).

Definition Nanoseconds (d : Duration) : Z := d.

(** The clock of the process: [reading c k] is what the [k]-th call of
    [time.Now()] returns, [reads c] counts the calls made so far. *)
Record Clock : Type := { reading : nat -> Time; reads : nat }.

Definition Now (c : Clock) : Time * Clock :=
  (reading c (reads c), {| reading := reading c; reads := S (reads c) |}).

(** [time.Since(t)] is [time.Now().Sub(t)]. *)
Definition Since (t : Time) (c : Clock) : Duration * Clock :=
  let '(now, c) := Now c in (Sub now t, c).

(** The reading the next call of [Now] returns. *)
Definition next (c : Clock) : Time := reading c (reads c).

Definition monotonic (c : Clock) : Prop :=
  forall j k : nat, (j <= k)%nat -> reading c j <= reading c k.

(** A clock that returns the readings of [l] in turn, then [last] forever. *)
Definition ticking (l : list Time) (last : Time) : Clock :=
  {| reading := fun k => nth k l last; reads := 0 |}.

End time.

(** ** bolt

    The store is a map from bucket names to buckets and a bucket a map from
    keys to values; keys are Go strings, that is byte strings.  Nothing in
    the program nests a bucket inside a user's bucket or puts a plain value
    at the root, so [ErrIncompatibleValue] has no place in the model.  A
    transaction works on its own copy of the buckets; [Update] installs the
    copy when the function returns [nil] and drops it otherwise. *)

Module bolt.

Definition MaxKeySize : Z := 32768.
Definition MaxValueSize : Z := 2147483646.

Record DB : Type := {
  opened : bool;
  root : gmap string (gmap string (list byte))
}.

Record Tx : Type := {
  writable : bool;
  buckets : gmap string (gmap string (list byte))
}.

(** A [*Bucket] of a transaction, by its name. *)
Abbreviation Bucket := string (only parsing).

Definition Tx_Bucket (t : Tx) (name : string) : option Bucket :=
  match buckets t !! name with
  | Some _ => Some name
  | None => None
  end.

Definition CreateBucketIfNotExists (t : Tx) (name : string)
  : Tx * (Bucket + error) :=
  if negb (writable t) then (t, inr ErrTxNotWritable)
  else if Nat.eqb (String.length name) 0 then (t, inr ErrBucketNameRequired)
  else
    match buckets t !! name with
    | Some _ => (t, inl name)
    | None =>
        ({| writable := writable t; buckets := <[name := ∅]> (buckets t) |},
         inl name)
    end.

Definition Get (t : Tx) (b : Bucket) (key : string) : option (list byte) :=
  match buckets t !! b with
  | Some kv => kv !! key
  | None => None
  end.

Definition Put (t : Tx) (b : Bucket) (key : string) (value : list byte)
  : Tx * option error :=
  if negb (writable t) then (t, Some ErrTxNotWritable)
  else if Nat.eqb (String.length key) 0 then (t, Some ErrKeyRequired)
  else if MaxKeySize <? Z.of_nat (String.length key) then (t, Some ErrKeyTooLarge)
  else if MaxValueSize <? Z.of_nat (length value) then (t, Some ErrValueTooLarge)
  else
    ({| writable := writable t;
        buckets := <[b := <[key := value]> (default ∅ (buckets t !! b))]>
                     (buckets t) |},
     None).

(** [b.ForEach(fn)]: [fn] on every pair of the bucket, until it returns an
    error; [st] is the state the closure [fn] captures. *)
Fixpoint ForEach_pairs {S : Type} (kvs : list (string * list byte))
    (fn : string -> list byte -> S -> S * option error) (st : S)
  : S * option error :=
  match kvs with
  | [] => (st, None)
  | (k, v) :: kvs =>
      match fn k v st with
      | (st, Some err) => (st, Some err)
      | (st, None) => ForEach_pairs kvs fn st
      end
  end.

Definition ForEach {S : Type} (t : Tx) (b : Bucket)
    (fn : string -> list byte -> S -> S * option error) (st : S)
  : S * option error :=
  ForEach_pairs (map_to_list (default ∅ (buckets t !! b))) fn st.

(** [db.Update(fn)]: begin a writable transaction, run [fn], roll back when
    it returns an error, commit otherwise.  What [fn] did to the memory of
    the process ([st]) stays in both cases. *)
Definition Update {S : Type} (db : DB)
    (fn : Tx -> S -> Tx * S * option error) (st : S)
  : DB * S * option error :=
  if negb (opened db) then (db, st, Some ErrDatabaseNotOpen)
  else
    match fn {| writable := true; buckets := root db |} st with
    | (_, st, Some err) => (db, st, Some err)
    | (t, st, None) => ({| opened := opened db; root := buckets t |}, st, None)
    end.

(** [db.View(fn)]: a read-only transaction, always rolled back. *)
Definition View {S : Type} (db : DB)
    (fn : Tx -> S -> S * option error) (st : S)
  : S * option error :=
  if negb (opened db) then (st, Some ErrDatabaseNotOpen)
  else fn {| writable := false; buckets := root db |} st.

Definition Close (db : DB) : DB := {| opened := false; root := root db |}.

End bolt.

(** ** discord: the two records the counter reads *)

Module discord.

Module User.
Record t : Type := { ID : string; Name : string }.
End User.

(** [Game.ID] is an [int]: main.go indexes [games map[int]discord.Game] by
    it and prints it with [strconv.Itoa]. *)
Module Game.
Record t : Type := { ID : Z; Name : string }.
End Game.

End discord.

(** ** Conversions of an [int] to a string *)

Definition chr (z : Z) : Ascii.ascii := Ascii.ascii_of_N (Z.to_N z).

(** [string(i)] for an integer [i]: the UTF-8 encoding of the code point
    [i], and of U+FFFD when [i] is not a valid code point. *)
Definition string_of_rune (r : Z) : string :=
  if (r <? 0) || (0x10FFFF <? r) || ((0xD800 <=? r) && (r <=? 0xDFFF)) then
    String (chr 0xEF) (String (chr 0xBF) (String (chr 0xBD) EmptyString))
  else if r <? 0x80 then
    String (chr r) EmptyString
  else if r <? 0x800 then
    String (chr (Z.lor 0xC0 (Z.shiftr r 6)))
      (String (chr (Z.lor 0x80 (Z.land r 0x3F))) EmptyString)
  else if r <? 0x10000 then
    String (chr (Z.lor 0xE0 (Z.shiftr r 12)))
      (String (chr (Z.lor 0x80 (Z.land (Z.shiftr r 6) 0x3F)))
         (String (chr (Z.lor 0x80 (Z.land r 0x3F))) EmptyString))
  else
    String (chr (Z.lor 0xF0 (Z.shiftr r 18)))
      (String (chr (Z.lor 0x80 (Z.land (Z.shiftr r 12) 0x3F)))
         (String (chr (Z.lor 0x80 (Z.land (Z.shiftr r 6) 0x3F)))
            (String (chr (Z.lor 0x80 (Z.land r 0x3F))) EmptyString))).

(** [strconv.Itoa]. *)
Definition Itoa (i : Z) : string := NilZero.string_of_int (Z.to_int i).

(** ** The log *)

Inductive LogEntry : Type :=
  | LogStarting (user game : string) (* "Starting to count for %s on %s" *)
  | LogUpdateError (err : error)     (* "Error while updating game time : %s" *)
  | LogSaved (userID : string)       (* "Saved %s" *)
  | LogPrint (err : error)           (* log.Print(err) *)
  | LogSnapshotDone                  (* "Snapshot done" *)
  | LogDoneCounting (user : string). (* "Done counting for %s" *)

(** What a function of the program reads and writes besides the counter:
    the clock and the log. *)
Record Env : Type := { clock : time.Clock; log : list LogEntry }.

Definition log_add (e : LogEntry) (env : Env) : Env :=
  {| clock := clock env; log := log env ++ [e] |}.

Definition with_clock (c : time.Clock) (env : Env) : Env :=
  {| clock := c; log := log env |}.

(** ** The counter: sessions in memory, totals in bolt *)

Record PlayingUser : Type := {
  UserID : string;
  StartTime : time.Time;
  GameID : string
}.

Definition set_StartTime (p : PlayingUser) (t : time.Time) : PlayingUser :=
  {| UserID := UserID p; StartTime := t; GameID := GameID p |}.

(** [func (p *PlayingUser) SaveGametime(t *bolt.Tx) error].  The receiver is
    a pointer: the function returns the [PlayingUser] it leaves behind. *)
Definition SaveGametime (p : PlayingUser) (t : bolt.Tx) (c : time.Clock)
  : PlayingUser * bolt.Tx * time.Clock * option error :=
  match bolt.CreateBucketIfNotExists t (UserID p) with
  | (t, inr err) => (p, t, c, Some err)
  | (t, inl b) =>
      let '(t, c, err) :=
        match bolt.Get t b (GameID p) with
        | Some bPlayed =>
            (* bytes to int64 *)
            let '(played, _) := binary.Varint bPlayed in
            (* Calc total time *)
            let '(now, c) := time.Now c in
            let total := time.Add now played in
            (* int64 to bytes *)
            let newPlayed := make (Z.to_nat binary.MaxVarintLen64) in
            match binary.PutVarint newPlayed
                    (time.Nanoseconds (time.Sub total (StartTime p))) with
            | None => (t, c, Some panic_index_out_of_range)
            | Some (newPlayed, _) =>
                let '(t, err) := bolt.Put t b (GameID p) newPlayed in (t, c, err)
            end
        | None =>
            (* int64 to bytes *)
            let newPlayed := make (Z.to_nat binary.MaxVarintLen64) in
            let '(since, c) := time.Since (StartTime p) c in
            match binary.PutVarint newPlayed (time.Nanoseconds since) with
            | None => (t, c, Some panic_index_out_of_range)
            | Some (newPlayed, _) =>
                let '(t, err) := bolt.Put t b (GameID p) newPlayed in (t, c, err)
            end
        end in
      match err with
      | Some err => (p, t, c, Some err)
      | None =>
          (* Update start time *)
          let '(now, c) := time.Now c in
          (set_StartTime p now, t, c, None)
      end
  end.

(** [GametimeChan] is not part of the state: what is received from it is
    the argument of [Listen]. *)
Record TimeCounter : Type := {
  InProgress : gmap string PlayingUser;
  GametimeDB : bolt.DB
}.

Definition StartGametime (counter : TimeCounter)
    (user : discord.User.t) (game : discord.Game.t) (env : Env)
  : TimeCounter * Env :=
  let env := log_add (LogStarting (discord.User.Name user) (discord.Game.Name game)) env in
  let '(now, c) := time.Now (clock env) in
  let pUser := {| UserID := discord.User.ID user;
                  GameID := string_of_rune (discord.Game.ID game);
                  StartTime := now |} in
  ({| InProgress := <[discord.User.ID user := pUser]> (InProgress counter);
      GametimeDB := GametimeDB counter |},
   with_clock c env).

(** [pUser] is passed by value: what [SaveGametime] does to it is dropped. *)
Definition EndGametime (counter : TimeCounter) (pUser : PlayingUser) (env : Env)
  : TimeCounter * Env :=
  (* Delete user from playing list *)
  let inProgress := delete (UserID pUser) (InProgress counter) in
  (* Update game time *)
  let '(db, (_, c), err) :=
    bolt.Update (GametimeDB counter)
      (fun t '(p, c) => let '(p, t, c, err) := SaveGametime p t c in (t, (p, c), err))
      (pUser, clock env) in
  let env := with_clock c env in
  let env := match err with
             | Some err => log_add (LogUpdateError err) env
             | None => env
             end in
  ({| InProgress := inProgress; GametimeDB := db |},
   log_add (LogSaved (UserID pUser)) env).

(** [Listen]: one [EndGametime] per value received.  bolt runs one writable
    transaction at a time; the model runs the calls in the order of the
    values. *)
Fixpoint Listen (received : list PlayingUser) (counter : TimeCounter) (env : Env)
  : TimeCounter * Env :=
  match received with
  | [] => (counter, env)
  | pUser :: received =>
      let '(counter, env) := EndGametime counter pUser env in
      Listen received counter env
  end.

Definition GetUserGametime (counter : TimeCounter) (user : discord.User.t)
  : gmap string Z * option error :=
  let gameMap : gmap string Z := ∅ in
  bolt.View (GametimeDB counter)
    (fun t gameMap =>
       match bolt.Tx_Bucket t (discord.User.ID user) with
       | None => (gameMap, Some (errors_New "user never played"))
       | Some b =>
           (* Iterate through all games *)
           let '(gameMap, _) :=
             bolt.ForEach t b
               (fun gameID nanoTime (gameMap : gmap string Z) =>
                  (<[gameID := fst (binary.Varint nanoTime)]> gameMap, None))
               gameMap in
           (gameMap, None)
       end)
    gameMap.

(** The body of [for _, pUser := range counter.InProgress]: [pUser] is a
    copy of the value in the map, and [SaveGametime] works on the copy. *)
Fixpoint Snapshot_range (sessions : list (string * PlayingUser))
    (t : bolt.Tx) (env : Env) : bolt.Tx * Env :=
  match sessions with
  | [] => (t, env)
  | (_, pUser) :: sessions =>
      let '(_, t, c, err) := SaveGametime pUser t (clock env) in
      let env := with_clock c env in
      let env := match err with
                 | Some err => log_add (LogPrint err) env
                 | None => env
                 end in
      Snapshot_range sessions t env
  end.

(** [Snapshot], the sessions taken in the order [order] gives them (Go
    leaves the order of a map's range open). *)
Definition Snapshot_in (order : gmap string PlayingUser -> list (string * PlayingUser))
    (counter : TimeCounter) (env : Env) : TimeCounter * Env * option error :=
  let '(db, env, err) :=
    bolt.Update (GametimeDB counter)
      (fun t env =>
         let '(t, env) := Snapshot_range (order (InProgress counter)) t env in
         (t, log_add LogSnapshotDone env, None))
      env in
  ({| InProgress := InProgress counter; GametimeDB := db |}, env, err).

Definition Snapshot : TimeCounter -> Env -> TimeCounter * Env * option error :=
  Snapshot_in map_to_list.

Definition Close (counter : TimeCounter) (env : Env) : TimeCounter * Env :=
  (* Save times for currently playing users *)
  let '(counter, env, err) := Snapshot counter env in
  let env := match err with
             | Some err => log_add (LogPrint err) env
             | None => env
             end in
  ({| InProgress := InProgress counter;
      GametimeDB := bolt.Close (GametimeDB counter) |}, env).

(** Modelled from the spec: the sender on [GametimeChan] is not in the
    sources.  "requestEnd(identity): enqueues a request to close the session
    for identity": the value sent is the live session of [identity]. *)
Definition requestEnd (counter : TimeCounter) (identity : string)
  : option PlayingUser :=
  InProgress counter !! identity.

(** ** The in-memory counter of main.go *)

Record Globals : Type := {
  usersPlaying : gset string;              (* the keys of [map[string]chan bool] *)
  playedTime : gmap string (gmap string Z) (* nanoseconds *)
}.


(** [countPlaytime] from the receive on: the update of the player's game
    time.  [None] is the panic of an assignment into a nil map. *)
Definition countPlaytime_end (g : Globals)
    (user : discord.User.t) (game : discord.Game.t) (start : time.Time) (env : Env)
  : option (Globals * Env) :=
  let uid := discord.User.ID user in
  (* Delete user from playing list *)
  let playing := usersPlaying g ∖ {[uid]} in
  (* Update player's game time *)
  let strGameID := Itoa (discord.Game.ID game) in
  match playedTime g !! uid with
  | None => None
  | Some games =>
      let '(value, c) :=
        match games !! strGameID with
        | Some played =>
            let '(now, c) := time.Now (clock env) in
            let total := time.Add now played in
            (time.Nanoseconds (time.Sub total start), c)
        | None =>
            let '(since, c) := time.Since start (clock env) in
            (time.Nanoseconds since, c)
        end in
      Some ({| usersPlaying := playing;
               playedTime := <[uid := <[strGameID := value]> games]> (playedTime g) |},
            log_add (LogDoneCounting (discord.User.Name user)) (with_clock c env))
  end.
(** ** Vocabulary of the statements *)

(** The zig-zag step of [PutVarint] and its inverse in [Varint]. *)
Definition zigzag (x : Z) : Z :=
  let ux := uint64 (Z.shiftl (uint64 x) 1) in
  if x <? 0 then uint64 (Z.lnot ux) else ux.

Definition unzigzag (ux : Z) : Z :=
  let x := int64 (Z.shiftr ux 1) in
  if negb (Z.land ux 1 =? 0) then int64 (Z.lnot x) else x.

(** The total an entry holds: the decoded value of its bytes, as
    [SaveGametime] and [GetUserGametime] read it. *)
Definition decode_played (stored : list byte) : Z := fst (binary.Varint stored).

(** The entry of [(identity, activity)] in the buckets of a store. *)
Definition entry (s : gmap string (gmap string (list byte)))
    (identity activity : string) : option (list byte) :=
  match s !! identity with
  | Some kv => kv !! activity
  | None => None
  end.

(** What the merge computes from the entry it finds, the reading of the
    clock and the start of the session. *)
Definition merged_total (found : option (list byte)) (now start : Z) : Z :=
  match found with
  | Some bPlayed => time.saturate (now + decode_played bPlayed - start)
  | None => time.saturate (now - start)
  end.

Definition valid_key (key : string) : Prop :=
  String.length key <> 0%nat /\ Z.of_nat (String.length key) <= bolt.MaxKeySize.

Definition tick (c : time.Clock) : time.Clock :=
  {| time.reading := time.reading c; time.reads := S (time.reads c) |}.

(** The transaction after [CreateBucketIfNotExists]. *)
Definition with_bucket (t : bolt.Tx) (name : string) : bolt.Tx :=
  match bolt.buckets t !! name with
  | Some _ => t
  | None => {| bolt.writable := bolt.writable t;
               bolt.buckets := <[name := ∅]> (bolt.buckets t) |}
  end.

(** The transaction after the [Put] of the merge. *)
Definition with_entry (t : bolt.Tx) (identity activity : string)
    (value : list byte) : bolt.Tx :=
  {| bolt.writable := bolt.writable t;
     bolt.buckets :=
       <[identity := <[activity := value]> (default ∅ (bolt.buckets t !! identity))]>
         (bolt.buckets t) |}.

Definition valid_keyb (key : string) : bool :=
  negb (String.length key =? 0)%nat
  && (Z.of_nat (String.length key) <=? bolt.MaxKeySize).

(** The stored form of [n]; the empty value stands for the panic of the
    encoder, which a buffer of [MaxVarintLen64] bytes rules out. *)
Definition stored_form (n : Z) : list byte := default [] (encode_played n).

(** The error of [Put] for a key that is not valid. *)
Definition key_error (key : string) : error :=
  if (String.length key =? 0)%nat then ErrKeyRequired else ErrKeyTooLarge.

(** The four ways [SaveGametime] can end. *)
Inductive merge_result (p : PlayingUser) (t : bolt.Tx) (c : time.Clock)
  : PlayingUser * bolt.Tx * time.Clock * option error -> Prop :=
  | merge_not_writable :
      bolt.writable t = false ->
      merge_result p t c (p, t, c, Some ErrTxNotWritable)
  | merge_no_name :
      bolt.writable t = true -> String.length (UserID p) = 0%nat ->
      merge_result p t c (p, t, c, Some ErrBucketNameRequired)
  | merge_bad_key :
      bolt.writable t = true -> String.length (UserID p) <> 0%nat ->
      ~ valid_key (GameID p) ->
      merge_result p t c
        (p, with_bucket t (UserID p), tick c, Some (key_error (GameID p)))
  | merge_done (newPlayed : list byte) :
      bolt.writable t = true -> String.length (UserID p) <> 0%nat ->
      valid_key (GameID p) ->
      encode_played
        (merged_total (entry (bolt.buckets t) (UserID p) (GameID p))
                      (time.next c) (StartTime p)) = Some newPlayed ->
      merge_result p t c
        (set_StartTime p (time.next (tick c)),
         with_entry t (UserID p) (GameID p) newPlayed,
         tick (tick c), None).


(** The total an entry counts for in a merge: zero when there is none. *)
Definition played_before (found : option (list byte)) : Z :=
  match found with
  | Some bPlayed => decode_played bPlayed
  | None => 0
  end.

(** [stored] is the stored form of the 64-bit total [v]. *)
Definition well_encoded (stored : list byte) (v : Z) : Prop :=
  in_int64 v /\ encode_played v = Some stored.

(** The total of [(identity, activity)] in the in-memory ledger of main.go. *)
Definition played (m : gmap string (gmap string Z))
    (identity activity : string) : option Z :=
  match m !! identity with
  | Some games => games !! activity
  | None => None
  end.

(** No entry of [s] is missing from [s'], and an entry that held the total
    [v] in its stored form holds in [s'] the stored form of a total that is
    not smaller. *)
Definition never_less (s s' : gmap string (gmap string (list byte))) : Prop :=
  forall identity activity stored,
    entry s identity activity = Some stored ->
    exists stored',
      entry s' identity activity = Some stored' /\
      forall v, well_encoded stored v ->
                exists v', well_encoded stored' v' /\ v <= v'.

(** The session [p] started at or before every reading the clock [c] has
    still to give. *)
Definition started (p : PlayingUser) (c : time.Clock) : Prop :=
  forall k : nat, (time.reads c <= k)%nat -> StartTime p <= time.reading c k.

(** What [EndGametime] leaves: the session gone from the live map, the
    store [db], the clock [c] and the log grown by [entries]. *)
Definition ended (counter : TimeCounter) (pUser : PlayingUser) (env : Env)
    (db : bolt.DB) (c : time.Clock) (entries : list LogEntry)
  : TimeCounter * Env :=
  ({| InProgress := delete (UserID pUser) (InProgress counter); GametimeDB := db |},
   {| clock := c; log := log env ++ entries |}).

(** ** Data of the worked runs *)

Module run.

Definition alice : discord.User.t :=
  {| discord.User.ID := "42"; discord.User.Name := "alice" |}.

Definition bob : discord.User.t :=
  {| discord.User.ID := "7"; discord.User.Name := "bob" |}.

(** [string(65)] is ["A"]. *)
Definition chess : discord.Game.t :=
  {| discord.Game.ID := 65; discord.Game.Name := "chess" |}.

Definition session (identity activity : string) (start : Z) : PlayingUser :=
  {| UserID := identity; StartTime := start; GameID := activity |}.

Definition store (s : gmap string (gmap string (list byte))) : bolt.DB :=
  {| bolt.opened := true; bolt.root := s |}.

Definition writing (s : gmap string (gmap string (list byte))) : bolt.Tx :=
  {| bolt.writable := true; bolt.buckets := s |}.

(** Ten bytes with the continuation bit set: a varint that never ends. *)
Definition unterminated : list byte := repeat Byte.x80 10.

(** The stored form of [n]; the empty value when the encoder panics, which
    it does not on a buffer of [MaxVarintLen64] bytes. *)
Definition stored_form (n : Z) : list byte := default [] (encode_played n).

Definition counter (sessions : gmap string PlayingUser)
    (s : gmap string (gmap string (list byte))) : TimeCounter :=
  {| InProgress := sessions; GametimeDB := store s |}.

Definition at_times (l : list Z) : Env :=
  {| clock := time.ticking l 0; log := [] |}.

(** Start a session at 1000, snapshot at 1100, end the live session at
    1250: the first stretch lasts 100, the second 150. *)
Definition snapshot_then_end : TimeCounter * Env :=
  let '(counter, env) :=
    StartGametime (counter ∅ ∅) alice chess (at_times [1000; 1100; 1100; 1250; 1250]) in
  let '(counter, env, _) := Snapshot counter env in
  match requestEnd counter "42" with
  | Some pUser => EndGametime counter pUser env
  | None => (counter, env)
  end.

End run.

(** ** Runs of the counter *)

(** Every entry of the store is the stored form of a 64-bit total that is
    not negative. *)
Definition sound (s : gmap string (gmap string (list byte))) : Prop :=
  forall identity activity stored,
    entry s identity activity = Some stored ->
    exists v, well_encoded stored v /\ 0 <= v.

(** Every live session started at or before the readings the clock has
    still to give. *)
Definition sessions_started (counter : TimeCounter) (env : Env) : Prop :=
  forall key p, InProgress counter !! key = Some p -> started p (clock env).

(** The calls the rest of the program makes on the counter.  [CallEnd] is
    the end of the live session of an identity: the session is what
    [Listen] receives and hands to [EndGametime]. *)
Inductive call : Type :=
  | CallStart (user : discord.User.t) (game : discord.Game.t)
  | CallEnd (who : string)
  | CallSnapshot.

Definition do_call (call : call) (state : TimeCounter * Env) : TimeCounter * Env :=
  let '(counter, env) := state in
  match call with
  | CallStart user game => StartGametime counter user game env
  | CallEnd who =>
      match requestEnd counter who with
      | Some pUser => Listen [pUser] counter env
      | None => (counter, env)
      end
  | CallSnapshot => fst (Snapshot counter env)
  end.

Definition do_calls (calls : list call) (state : TimeCounter * Env)
  : TimeCounter * Env :=
  foldl (fun state call => do_call call state) state calls.

(** The live map is keyed by the user ID of its sessions, as
    [StartGametime] fills it. *)
Definition keyed_by_user (counter : TimeCounter) : Prop :=
  forall key p, InProgress counter !! key = Some p -> UserID p = key.

(** A code point that [string(i)] encodes as itself, and the code point
    the conversion encodes: U+FFFD for every other integer. *)
Definition valid_runeb (r : Z) : bool :=
  negb ((r <? 0) || (0x10FFFF <? r) || ((0xD800 <=? r) && (r <=? 0xDFFF))).

Definition encoded_rune (r : Z) : Z := if valid_runeb r then r else 0xFFFD.

(** The bytes of a string, as numbers. *)
Fixpoint codes (s : string) : list Z :=
  match s with
  | EmptyString => []
  | String a s => Z.of_N (Ascii.N_of_ascii a) :: codes s
  end.

(** An environment whose clock gives the readings of [l], then [last] for
    ever, and whose log is empty. *)
Definition readings (l : list Z) (last : Z) : Env :=
  {| clock := time.ticking l last; log := [] |}.

(** ** The command dispatch of main.go *)

(** The space, byte 32. *)
Definition space : Ascii.ascii := Ascii.ascii_of_nat 32.

(** [strings.HasPrefix(s, prefix)]. *)
Definition strings_HasPrefix (s prefix : string) : bool := String.prefix prefix s.

(** [strings.Split(s, " ")]: the fields between the spaces of [s], empty
    fields included; one more field than there are spaces. *)
Fixpoint strings_Split_space (s : string) : list string :=
  match s with
  | EmptyString => [EmptyString]
  | String a s =>
      if Ascii.eqb a space then EmptyString :: strings_Split_space s
      else
        match strings_Split_space s with
        | field :: fields => String a field :: fields
        | [] => [String a EmptyString]
        end
  end.

(** The keys of the map [commands] that [main] fills. *)
Definition commands : list string :=
  ["help"; "reminder"; "stats"; "source"; "avatar"; "played"]%string.

(** What [messageReceived] does with a message: nothing, the log line
    "No command '%s'", or the call of the handler of a command with [args]. *)
Inductive dispatch : Type :=
  | Ignored
  | NoCommand (name : string)
  | Handler (word : string) (args : list string).

(** [messageReceived], on the counter [totalCommands] (an [int]) and the
    content of the message. *)
Definition messageReceived (totalCommands : Z) (content : string) : Z * dispatch :=
  if negb (strings_HasPrefix content "!go") then (totalCommands, Ignored)
  else
    let args := strings_Split_space content in
    if Z.of_nat (length args) - 1 <? 1 then (totalCommands, Ignored)
    else
      let totalCommands := int64 (totalCommands + 1) in
      let name := nth 1 args EmptyString in
      if bool_decide (name ∈ commands) then (totalCommands, Handler name args)
      else (totalCommands, NoCommand name).

Fixpoint has_space (s : string) : bool :=
  match s with
  | EmptyString => false
  | String a s => Ascii.eqb a space || has_space s
  end.
(** ** Facts about the codec *)

Section varint_facts.

Lemma lor_disjoint_add (a b s : Z) :
  0 <= s -> 0 <= a < 2 ^ s -> 0 <= b ->
  Z.lor a (b * 2 ^ s) = a + b * 2 ^ s.
Proof.
  intros Hs Ha Hb.
  assert (Hland : Z.land a (b * 2 ^ s) = 0).
  { apply Z.bits_inj'. intros k Hk.
    rewrite Z.land_spec, Z.bits_0.
    destruct (Z.lt_ge_cases k s) as [Hlt | Hge].
    - rewrite Z.mul_pow2_bits_low by lia. apply andb_false_r.
    - destruct (Z.eq_dec a 0) as [-> | Hne].
      + now rewrite Z.bits_0.
      + rewrite (Z.bits_above_log2 a k); [reflexivity | lia |].
        apply Z.log2_lt_pow2; [lia |].
        apply Z.lt_le_trans with (2 ^ s); [lia |].
        apply Z.pow_le_mono_r; lia. }
  rewrite <- Z.lxor_lor by exact Hland.
  symmetry. apply Z.add_nocarry_lxor. exact Hland.
Qed.

Lemma byte_of_small (x : Z) :
  0 <= x < 256 -> byte.unsigned (byte.of_Z x) = x.
Proof.
  intros Hx. rewrite byte.unsigned_of_Z. unfold byte.wrap.
  apply Z.mod_small. lia.
Qed.

(** [byte(x) | 0x80] keeps the low seven bits of [x] and sets the top one. *)
Lemma continuation_byte (x : Z) :
  0 <= x ->
  byte.unsigned (byte.of_Z (Z.lor (byte.unsigned (byte.of_Z x)) 0x80))
  = x mod 128 + 128.
Proof.
  intros Hx.
  rewrite (byte.unsigned_of_Z x). unfold byte.wrap.
  assert (Hm : 0 <= x mod 2 ^ 8 < 2 ^ 8) by (apply Z.mod_pos_bound; lia).
  assert (Hlor : Z.lor (x mod 2 ^ 8) 128 = x mod 128 + 128).
  { change 128 with (1 * 2 ^ 7) at 1.
    assert (Hsplit : x mod 2 ^ 8 = x mod 128 + 128 * ((x / 128) mod 2)).
    { change (2 ^ 8) with (128 * 2). rewrite Z.rem_mul_r by lia. lia. }
    assert (H2 : 0 <= (x / 128) mod 2 < 2) by (apply Z.mod_pos_bound; lia).
    assert (H128 : 0 <= x mod 128 < 128) by (apply Z.mod_pos_bound; lia).
    assert (Hcase : (x / 128) mod 2 = 0 \/ (x / 128) mod 2 = 1) by lia.
    destruct Hcase as [E | E]; rewrite Hsplit, E.
    - rewrite Z.mul_0_r, Z.add_0_r.
      rewrite lor_disjoint_add; change (2 ^ 7) with 128; lia.
    - replace (x mod 128 + 128 * 1) with (x mod 128 + 1 * 2 ^ 7)
        by (change (2 ^ 7) with 128; lia).
      rewrite <- (lor_disjoint_add (x mod 128) 1 7)
        by (change (2 ^ 7) with 128; lia).
      rewrite <- Z.lor_assoc, Z.lor_diag.
      rewrite lor_disjoint_add; change (2 ^ 7) with 128; lia. }
  rewrite Hlor. apply byte_of_small.
  assert (0 <= x mod 128 < 128) by (apply Z.mod_pos_bound; lia). lia.
Qed.

End varint_facts.

Section varint_roundtrip.

Import binary.

Lemma low7_of_continuation (x : Z) :
  0 <= x -> Z.land (x mod 128 + 128) 0x7f = x mod 128.
Proof.
  intros Hx. change 0x7f with (Z.ones 7). rewrite Z.land_ones by lia.
  change (2 ^ 7) with 128.
  assert (0 <= x mod 128 < 128) by (apply Z.mod_pos_bound; lia).
  rewrite <- (Z.mod_unique (x mod 128 + 128) 128 1 (x mod 128)); lia.
Qed.

(** Reading back what [PutUvarint_at] wrote from index [i] on, with the
    accumulator holding the [7 * i] bits decoded so far. *)
Lemma Uvarint_loop_PutUvarint_at (buf : list byte) :
  forall x i acc buf' n,
    0 <= i <= 9 -> 0 <= x < 2 ^ (64 - 7 * i) -> 0 <= acc < 2 ^ (7 * i) ->
    PutUvarint_at buf x i = Some (buf', n) ->
    Uvarint_loop buf' acc (7 * i) i = (acc + x * 2 ^ (7 * i), n).
Proof.
  induction buf as [| b0 rest IH]; intros x i acc buf' n Hi Hx Hacc Hput.
  - discriminate.
  - cbn [PutUvarint_at] in Hput.
    destruct (0x80 <=? x) eqn:Hbig.
    + apply Z.leb_le in Hbig.
      destruct (PutUvarint_at rest (Z.shiftr x 7) (i + 1))
        as [[rest' n'] |] eqn:Hrec; [| discriminate].
      injection Hput as <- <-.
      assert (Hi8 : i <= 8).
      { destruct (Z.eq_dec i 9) as [-> | ?]; [| lia].
        change (2 ^ (64 - 7 * 9)) with 2 in Hx. lia. }
      cbn [Uvarint_loop]. rewrite continuation_byte by lia.
      assert (Hlow : 0 <= x mod 128 < 128) by (apply Z.mod_pos_bound; lia).
      replace (i =? MaxVarintLen64) with false
        by (symmetry; apply Z.eqb_neq; unfold MaxVarintLen64; lia).
      replace (x mod 128 + 128 <? 128) with false
        by (symmetry; apply Z.ltb_ge; lia).
      rewrite low7_of_continuation by lia.
      rewrite Z.shiftl_mul_pow2 by lia.
      rewrite Z.shiftr_div_pow2 in Hrec by lia. change (2 ^ 7) with 128 in Hrec.
      assert (Hpow : 0 < 2 ^ (7 * i)) by (apply Z.pow_pos_nonneg; lia).
      assert (Hnext : 2 ^ (7 * (i + 1)) = 128 * 2 ^ (7 * i)).
      { replace (7 * (i + 1)) with (7 + 7 * i) by lia.
        rewrite Z.pow_add_r by lia. reflexivity. }
      assert (Hword : 2 ^ (64 - 7 * i) * 2 ^ (7 * i) = 2 ^ 64).
      { rewrite <- Z.pow_add_r by lia. f_equal. lia. }
      assert (Hdm : x = 128 * (x / 128) + x mod 128) by (apply Z.div_mod; lia).
      assert (Hq : 0 <= x / 128) by (apply Z.div_pos; lia).
      unfold uint64. rewrite Z.mod_small by nia.
      rewrite lor_disjoint_add by lia.
      replace (7 * i + 7) with (7 * (i + 1)) by lia.
      rewrite (IH (x / 128) (i + 1) _ rest' n'); try assumption; try lia.
      * f_equal. rewrite Hnext. nia.
      * split; [lia |].
        assert (Hsplit : 2 ^ (64 - 7 * i) = 128 * 2 ^ (64 - 7 * (i + 1))).
        { replace (64 - 7 * i) with (7 + (64 - 7 * (i + 1))) by lia.
          rewrite Z.pow_add_r by lia. reflexivity. }
        apply Z.div_lt_upper_bound; lia.
      * rewrite Hnext. nia.
    + apply Z.leb_gt in Hbig. injection Hput as <- <-.
      cbn [Uvarint_loop]. rewrite byte_of_small by lia.
      replace (i =? MaxVarintLen64) with false
        by (symmetry; apply Z.eqb_neq; unfold MaxVarintLen64; lia).
      replace (x <? 128) with true by (symmetry; apply Z.ltb_lt; lia).
      assert (Hlast : (i =? MaxVarintLen64 - 1) && (1 <? x) = false).
      { destruct (Z.eq_dec i 9) as [-> | Hne].
        - change (2 ^ (64 - 7 * 9)) with 2 in Hx.
          replace (1 <? x) with false by (symmetry; apply Z.ltb_ge; lia).
          apply andb_false_r.
        - replace (i =? MaxVarintLen64 - 1) with false
            by (symmetry; apply Z.eqb_neq; unfold MaxVarintLen64; lia).
          reflexivity. }
      rewrite Hlast.
      rewrite Z.shiftl_mul_pow2 by lia.
      assert (Hpow : 0 < 2 ^ (7 * i)) by (apply Z.pow_pos_nonneg; lia).
      assert (Hword : 2 ^ (64 - 7 * i) * 2 ^ (7 * i) = 2 ^ 64).
      { rewrite <- Z.pow_add_r by lia. f_equal. lia. }
      unfold uint64. rewrite Z.mod_small by nia.
      rewrite lor_disjoint_add by lia. reflexivity.
Qed.

Lemma Uvarint_PutUvarint (buf buf' : list byte) (x n : Z) :
  0 <= x < 2 ^ 64 ->
  PutUvarint buf x = Some (buf', n) ->
  Uvarint buf' = (x, n).
Proof.
  intros Hx Hput. unfold Uvarint, PutUvarint in *.
  change 0 with (7 * 0) at 2.
  rewrite (Uvarint_loop_PutUvarint_at buf x 0 0 buf' n); try assumption; try lia.
  f_equal. change (2 ^ (7 * 0)) with 1. lia.
Qed.

(** [PutUvarint_at] does not run off a buffer with seven bits of room per
    byte, keeps the length of the buffer and leaves the bytes after the
    ones it wrote as they were. *)
Lemma PutUvarint_at_total (buf : list byte) :
  forall x i,
    buf <> [] -> 0 <= x < 2 ^ (7 * Z.of_nat (length buf)) ->
    exists buf' n,
      PutUvarint_at buf x i = Some (buf', n) /\
      length buf' = length buf /\
      i < n <= i + Z.of_nat (length buf) /\
      drop (Z.to_nat (n - i)) buf' = drop (Z.to_nat (n - i)) buf.
Proof.
  induction buf as [| b0 rest IH]; intros x i Hne Hx; [congruence |].
  cbn [PutUvarint_at]. destruct (0x80 <=? x) eqn:Hbig.
  - apply Z.leb_le in Hbig.
    assert (Hlen : 2 ^ (7 * Z.of_nat (length (b0 :: rest)))
                   = 128 * 2 ^ (7 * Z.of_nat (length rest))).
    { cbn [length]. rewrite Nat2Z.inj_succ.
      replace (7 * Z.succ (Z.of_nat (length rest)))
        with (7 + 7 * Z.of_nat (length rest)) by lia.
      rewrite Z.pow_add_r by lia. reflexivity. }
    rewrite Hlen in Hx.
    assert (Hrest : rest <> []).
    { intros ->. cbn in Hx. lia. }
    destruct (IH (Z.shiftr x 7) (i + 1) Hrest) as (rest' & n & -> & Hl & Hn & Hd).
    { rewrite Z.shiftr_div_pow2 by lia. change (2 ^ 7) with 128.
      split; [apply Z.div_pos; lia | apply Z.div_lt_upper_bound; lia]. }
    eexists _, n. split; [reflexivity |]. cbn [length]. rewrite Hl.
    split; [reflexivity |]. split; [lia |].
    replace (Z.to_nat (n - i)) with (S (Z.to_nat (n - (i + 1)))) by lia.
    cbn [drop]. exact Hd.
  - eexists _, (i + 1). split; [reflexivity |]. cbn [length].
    split; [reflexivity |]. split; [lia |].
    replace (Z.to_nat (i + 1 - i)) with 1%nat by lia. reflexivity.
Qed.

Lemma zigzag_range (x : Z) : 0 <= zigzag x < 2 ^ 64.
Proof.
  unfold zigzag, uint64. destruct (x <? 0); apply Z.mod_pos_bound; lia.
Qed.

Lemma zigzag_value (x : Z) :
  in_int64 x -> zigzag x = if x <? 0 then - 2 * x - 1 else 2 * x.
Proof.
  unfold in_int64, minInt64, maxInt64, zigzag, uint64. intros Hx.
  rewrite Z.shiftl_mul_pow2 by lia. change (2 ^ 1) with 2.
  destruct (x <? 0) eqn:Hneg.
  - apply Z.ltb_lt in Hneg.
    rewrite <- (Z.mod_unique x (2 ^ 64) (-1) (x + 2 ^ 64)) by lia.
    rewrite <- (Z.mod_unique ((x + 2 ^ 64) * 2) (2 ^ 64) 1 (2 * x + 2 ^ 64)) by lia.
    unfold Z.lnot.
    rewrite <- (Z.mod_unique (Z.pred (- (2 * x + 2 ^ 64))) (2 ^ 64) (-1) (- 2 * x - 1));
      lia.
  - apply Z.ltb_ge in Hneg.
    rewrite (Z.mod_small x) by lia. rewrite Z.mod_small; lia.
Qed.

Lemma unzigzag_zigzag (x : Z) : in_int64 x -> unzigzag (zigzag x) = x.
Proof.
  intros Hx. rewrite zigzag_value by exact Hx.
  unfold in_int64, minInt64, maxInt64 in Hx. unfold unzigzag, int64.
  assert (Hland : forall a, Z.land a 1 = a mod 2).
  { intros a. change 1 with (Z.ones 1). now rewrite Z.land_ones by lia. }
  rewrite Hland, !Z.shiftr_div_pow2 by lia. change (2 ^ 1) with 2.
  destruct (x <? 0) eqn:Hneg.
  - apply Z.ltb_lt in Hneg.
    rewrite <- (Z.mod_unique (- 2 * x - 1) 2 (- x - 1) 1) by lia.
    rewrite <- (Z.div_unique (- 2 * x - 1) 2 (- x - 1) 1) by lia.
    cbn [Z.eqb negb].
    rewrite (Z.mod_small (- x - 1 + 2 ^ 63)) by lia.
    unfold Z.lnot.
    rewrite Z.mod_small; lia.
  - apply Z.ltb_ge in Hneg.
    rewrite <- (Z.mod_unique (2 * x) 2 x 0) by lia.
    rewrite <- (Z.div_unique (2 * x) 2 x 0) by lia.
    cbn [Z.eqb negb]. rewrite Z.mod_small; lia.
Qed.

Lemma PutVarint_zigzag (buf : list byte) (x : Z) :
  PutVarint buf x = PutUvarint buf (zigzag x).
Proof. reflexivity. Qed.

Lemma Varint_unzigzag (buf : list byte) :
  Varint buf = (unzigzag (fst (Uvarint buf)), snd (Uvarint buf)).
Proof. unfold Varint, unzigzag. destruct (Uvarint buf). reflexivity. Qed.

Lemma Varint_PutVarint (buf buf' : list byte) (x n : Z) :
  in_int64 x -> PutVarint buf x = Some (buf', n) -> Varint buf' = (x, n).
Proof.
  intros Hx Hput. rewrite PutVarint_zigzag in Hput.
  rewrite Varint_unzigzag.
  rewrite (Uvarint_PutUvarint buf buf' (zigzag x) n (zigzag_range x) Hput).
  cbn [fst snd]. now rewrite unzigzag_zigzag.
Qed.

(** A buffer of [MaxVarintLen64] bytes holds every 64-bit value. *)
Lemma encode_played_total (x : Z) :
  exists buf n,
    PutVarint (make (Z.to_nat MaxVarintLen64)) x = Some (buf, n) /\
    encode_played x = Some buf /\
    length buf = Z.to_nat MaxVarintLen64 /\
    0 < n <= MaxVarintLen64 /\
    drop (Z.to_nat n) buf = repeat Byte.x00 (Z.to_nat (MaxVarintLen64 - n)).
Proof.
  destruct (PutUvarint_at_total (make (Z.to_nat MaxVarintLen64)) (zigzag x) 0)
    as (buf & n & Hput & Hlen & Hn & Hdrop).
  - discriminate.
  - pose proof (zigzag_range x) as Hr.
    change (2 ^ (7 * Z.of_nat (length (make (Z.to_nat MaxVarintLen64)))))
      with (2 ^ 64 * 64). lia.
  - exists buf, n. unfold encode_played. rewrite PutVarint_zigzag.
    unfold PutUvarint. rewrite Hput. split; [reflexivity |].
    split; [reflexivity |]. split; [exact Hlen |].
    change (Z.of_nat (length (make (Z.to_nat MaxVarintLen64)))) with 10 in Hn.
    unfold MaxVarintLen64. split; [lia |].
    rewrite Z.sub_0_r in Hdrop. rewrite Hdrop. unfold make.
    change (Z.to_nat 10) with 10%nat.
    replace (Z.to_nat (10 - n)) with (10 - Z.to_nat n)%nat by lia.
    assert (Hk : (Z.to_nat n <= 10)%nat) by lia.
    generalize dependent (Z.to_nat n). clear. intros k Hk.
    do 11 (destruct k as [| k]; [reflexivity |]). lia.
Qed.

End varint_roundtrip.

(** ** What one merge does *)

Section merge_facts.

Lemma Get_entry (t : bolt.Tx) (b key : string) :
  bolt.Get t b key = entry (bolt.buckets t) b key.
Proof. reflexivity. Qed.

Lemma Put_with_bucket (t : bolt.Tx) (identity activity : string) (value : list byte) :
  bolt.writable t = true -> valid_key activity ->
  Z.of_nat (length value) <= bolt.MaxValueSize ->
  bolt.Put (with_bucket t identity) identity activity value
  = (with_entry t identity activity value, None).
Proof.
  intros Hw [Hk0 Hk1] Hv. unfold bolt.Put, with_bucket, with_entry.
  destruct (bolt.buckets t !! identity) as [kv |] eqn:Hb; cbn [bolt.writable bolt.buckets];
    rewrite Hw; cbn [negb];
    (replace (String.length activity =? 0)%nat with false
       by (symmetry; apply Nat.eqb_neq; exact Hk0));
    (replace (bolt.MaxKeySize <? Z.of_nat (String.length activity)) with false
       by (symmetry; apply Z.ltb_ge; exact Hk1));
    (replace (bolt.MaxValueSize <? Z.of_nat (length value)) with false
       by (symmetry; apply Z.ltb_ge; exact Hv)).
  - rewrite Hb. reflexivity.
  - rewrite lookup_insert_eq, insert_insert_eq. reflexivity.
Qed.

Lemma Put_invalid_key (t : bolt.Tx) (b key : string) (value : list byte) :
  bolt.writable t = true -> ~ valid_key key ->
  bolt.Put t b key value = (t, Some (key_error key)).
Proof.
  intros Hw Hk. unfold bolt.Put, key_error. rewrite Hw. cbn [negb].
  destruct (String.length key =? 0)%nat eqn:H0; [reflexivity |].
  destruct (bolt.MaxKeySize <? Z.of_nat (String.length key)) eqn:H1; [reflexivity |].
  exfalso. apply Hk. split.
  - now apply Nat.eqb_neq.
  - now apply Z.ltb_ge.
Qed.

Lemma entry_with_bucket (t : bolt.Tx) (name identity activity : string) :
  entry (bolt.buckets (with_bucket t name)) identity activity
  = entry (bolt.buckets t) identity activity.
Proof.
  unfold with_bucket, entry.
  destruct (bolt.buckets t !! name) eqn:Hb; [reflexivity |].
  cbn [bolt.buckets]. destruct (decide (name = identity)) as [-> | Hne].
  - rewrite lookup_insert_eq, Hb. apply lookup_empty.
  - rewrite lookup_insert_ne by exact Hne. reflexivity.
Qed.

Lemma valid_key_dec (key : string) : {valid_key key} + {~ valid_key key}.
Proof.
  unfold valid_key.
  destruct (Nat.eq_dec (String.length key) 0%nat) as [H0 | H0];
    [right; tauto |].
  destruct (Z_le_dec (Z.of_nat (String.length key)) bolt.MaxKeySize);
    [left | right]; tauto.
Qed.

Lemma SaveGametime_result (p : PlayingUser) (t : bolt.Tx) (c : time.Clock) :
  merge_result p t c (SaveGametime p t c).
Proof.
  unfold SaveGametime, bolt.CreateBucketIfNotExists.
  destruct (bolt.writable t) eqn:Hw; cbn [negb]; [| now constructor].
  destruct (String.length (UserID p) =? 0)%nat eqn:Hname.
  { apply Nat.eqb_eq in Hname. now constructor. }
  apply Nat.eqb_neq in Hname.
  set (found := entry (bolt.buckets t) (UserID p) (GameID p)).
  destruct (encode_played_total (merged_total found (time.next c) (StartTime p)))
    as (buf & n & Hput & Henc & Hlen & _).
  assert (Hsize : Z.of_nat (length buf) <= bolt.MaxValueSize).
  { rewrite Hlen. unfold bolt.MaxValueSize, binary.MaxVarintLen64. lia. }
  assert (Hstep :
    match bolt.buckets t !! UserID p with
    | Some _ => (t, inl (UserID p))
    | None => ({| bolt.writable := bolt.writable t;
                  bolt.buckets := <[UserID p := ∅]> (bolt.buckets t) |},
               inl (UserID p))
    end = (with_bucket t (UserID p), @inl string error (UserID p))).
  { unfold with_bucket. now destruct (bolt.buckets t !! UserID p). }
  rewrite Hw in Hstep. rewrite Hstep. clear Hstep.
  rewrite Get_entry, entry_with_bucket. fold found.
  assert (Hw' : bolt.writable (with_bucket t (UserID p)) = true).
  { unfold with_bucket. now destruct (bolt.buckets t !! UserID p). }
  destruct found as [bPlayed |] eqn:Hfound.
  - unfold merged_total, decode_played in Hput, Henc.
    destruct (binary.Varint bPlayed) as [played k] eqn:Hvar. cbn [fst] in Hput, Henc.
    unfold time.Now, time.Nanoseconds, time.Sub, time.Add.
    fold (time.next c). fold (tick c). rewrite Hput.
    destruct (valid_key_dec (GameID p)) as [Hk | Hk].
    + rewrite Put_with_bucket by assumption.
      fold (time.next (tick c)). fold (tick (tick c)).
      apply merge_done; try assumption.
      fold found. rewrite Hfound. unfold merged_total, decode_played.
      rewrite Hvar. exact Henc.
    + rewrite (Put_invalid_key (with_bucket t (UserID p)) (UserID p) (GameID p) buf Hw' Hk).
      now apply merge_bad_key.
  - unfold merged_total in Hput, Henc.
    unfold time.Since, time.Now, time.Nanoseconds, time.Sub.
    fold (time.next c). fold (tick c). rewrite Hput.
    destruct (valid_key_dec (GameID p)) as [Hk | Hk].
    + rewrite Put_with_bucket by assumption.
      fold (time.next (tick c)). fold (tick (tick c)).
      apply merge_done; try assumption.
      fold found. rewrite Hfound. exact Henc.
    + rewrite (Put_invalid_key (with_bucket t (UserID p)) (UserID p) (GameID p) buf Hw' Hk).
      now apply merge_bad_key.
Qed.

End merge_facts.

(** ** Arithmetic of the merge *)

Section merge_arithmetic.

Lemma saturate_in_range (z : Z) : in_int64 z -> time.saturate z = z.
Proof.
  unfold in_int64, time.saturate, time.minDuration, time.maxDuration.
  intros Hz.
  replace (z <? minInt64) with false by (symmetry; apply Z.ltb_ge; lia).
  replace (maxInt64 <? z) with false by (symmetry; apply Z.ltb_ge; lia).
  reflexivity.
Qed.

Lemma saturate_range (z : Z) : in_int64 (time.saturate z).
Proof.
  unfold in_int64, time.saturate, time.minDuration, time.maxDuration,
    minInt64, maxInt64.
  destruct (z <? - 2 ^ 63) eqn:Hlo; [lia |].
  destruct (2 ^ 63 - 1 <? z) eqn:Hhi; [lia |].
  apply Z.ltb_ge in Hlo, Hhi. lia.
Qed.

Lemma saturate_grows (v e : Z) :
  in_int64 v -> 0 <= e -> v <= time.saturate (v + e).
Proof.
  unfold in_int64, time.saturate, time.minDuration, time.maxDuration,
    minInt64, maxInt64.
  intros Hv He.
  destruct (v + e <? - 2 ^ 63) eqn:Hlo; [apply Z.ltb_lt in Hlo; lia |].
  destruct (2 ^ 63 - 1 <? v + e) eqn:Hhi; lia.
Qed.

Lemma merged_total_sum (found : option (list byte)) (now start : Z) :
  merged_total found now start
  = time.saturate (played_before found + (now - start)).
Proof.
  unfold merged_total, played_before.
  destruct found; f_equal; lia.
Qed.

Lemma decode_encode (v : Z) (stored : list byte) :
  well_encoded stored v -> decode_played stored = v.
Proof.
  intros [Hv Henc]. unfold encode_played in Henc.
  destruct (binary.PutVarint (make (Z.to_nat binary.MaxVarintLen64)) v)
    as [[buf n] |] eqn:Hput; [| discriminate].
  cbn in Henc. injection Henc as <-.
  unfold decode_played. now rewrite (Varint_PutVarint _ _ _ _ Hv Hput).
Qed.

Lemma encode_played_some (v : Z) : exists stored, encode_played v = Some stored.
Proof.
  destruct (encode_played_total v) as (buf & n & _ & Henc & _). eauto.
Qed.

Lemma entry_with_entry (t : bolt.Tx) (identity activity : string) (value : list byte) :
  entry (bolt.buckets (with_entry t identity activity value)) identity activity
  = Some value.
Proof.
  unfold entry, with_entry. cbn [bolt.buckets].
  rewrite lookup_insert_eq. apply lookup_insert_eq.
Qed.

Lemma entry_with_entry_other (t : bolt.Tx) (identity activity i a : string)
    (value : list byte) :
  i <> identity \/ a <> activity ->
  entry (bolt.buckets (with_entry t identity activity value)) i a
  = entry (bolt.buckets t) i a.
Proof.
  intros Hne. unfold entry, with_entry. cbn [bolt.buckets].
  destruct (decide (identity = i)) as [<- | Hi].
  - rewrite lookup_insert_eq.
    destruct Hne as [Hne | Hne]; [congruence |].
    rewrite lookup_insert_ne by congruence.
    destruct (bolt.buckets t !! identity); [reflexivity | apply lookup_empty].
  - rewrite lookup_insert_ne by exact Hi. reflexivity.
Qed.

(** A decode that fails yields the value zero. *)
Lemma Uvarint_loop_failure (buf : list byte) :
  forall x s i, 0 <= i ->
    snd (binary.Uvarint_loop buf x s i) <= 0 ->
    fst (binary.Uvarint_loop buf x s i) = 0.
Proof.
  induction buf as [| b rest IH]; intros x s i Hi; cbn [binary.Uvarint_loop].
  - reflexivity.
  - destruct (i =? binary.MaxVarintLen64); [reflexivity |].
    destruct (byte.unsigned b <? 128).
    + destruct ((i =? binary.MaxVarintLen64 - 1) && (1 <? byte.unsigned b));
        [reflexivity |].
      cbn [fst snd]. lia.
    + apply IH. lia.
Qed.

Lemma Varint_failure (buf : list byte) :
  snd (binary.Varint buf) <= 0 -> decode_played buf = 0.
Proof.
  unfold decode_played. rewrite Varint_unzigzag. cbn [fst snd].
  intros Hn. unfold binary.Uvarint in *.
  rewrite Uvarint_loop_failure by (try exact Hn; lia). reflexivity.
Qed.

End merge_arithmetic.

(** ** The query *)

Section query_facts.

Lemma ForEach_pairs_decode (kvs : list (string * list byte)) :
  forall acc : gmap string Z,
    NoDup kvs.*1 ->
    exists m,
      bolt.ForEach_pairs kvs
        (fun gameID nanoTime (gameMap : gmap string Z) =>
           (<[gameID := fst (binary.Varint nanoTime)]> gameMap, None)) acc
      = (m, None) /\
      forall k, m !! k
                = match (list_to_map kvs : gmap string (list byte)) !! k with
                  | Some v => Some (decode_played v)
                  | None => acc !! k
                  end.
Proof.
  induction kvs as [| [k0 v0] kvs IH]; intros acc Hnd.
  - exists acc. split; [reflexivity |]. intros k. cbn. now rewrite lookup_empty.
  - cbn [fmap list_fmap fst] in Hnd. apply NoDup_cons in Hnd as [Hk0 Hnd].
    cbn [bolt.ForEach_pairs].
    destruct (IH (<[k0 := fst (binary.Varint v0)]> acc) Hnd) as (m & Hrun & Hm).
    exists m. split; [exact Hrun |]. intros k. rewrite Hm.
    cbn [list_to_map foldr uncurry fst snd].
    destruct (decide (k0 = k)) as [<- | Hne].
    + rewrite (not_elem_of_list_to_map_1 (M := gmap string) kvs k0 Hk0).
      now rewrite !lookup_insert_eq.
    + rewrite !lookup_insert_ne by exact Hne. reflexivity.
Qed.

Lemma ForEach_decode (t : bolt.Tx) (b : string) (kv : gmap string (list byte)) :
  bolt.buckets t !! b = Some kv ->
  bolt.ForEach t b
    (fun gameID nanoTime (gameMap : gmap string Z) =>
       (<[gameID := fst (binary.Varint nanoTime)]> gameMap, None)) ∅
  = (decode_played <$> kv, None).
Proof.
  intros Hb. unfold bolt.ForEach. rewrite Hb.
  change (default ∅ (Some kv)) with kv.
  destruct (ForEach_pairs_decode (map_to_list kv) ∅ (NoDup_fst_map_to_list kv))
    as (m & -> & Hm).
  f_equal. apply map_eq. intros k.
  rewrite Hm, list_to_map_to_list, lookup_fmap, lookup_empty.
  now destruct (kv !! k).
Qed.

(** [GetUserGametime], case by case. *)
Lemma GetUserGametime_cases (counter : TimeCounter) (user : discord.User.t) :
  GetUserGametime counter user
  = if bolt.opened (GametimeDB counter) then
      match bolt.root (GametimeDB counter) !! discord.User.ID user with
      | Some kv => (decode_played <$> kv, None)
      | None => (∅, Some (errors_New "user never played"))
      end
    else (∅, Some ErrDatabaseNotOpen).
Proof.
  unfold GetUserGametime, bolt.View, bolt.Tx_Bucket.
  destruct (bolt.opened (GametimeDB counter)); cbn [negb]; [| reflexivity].
  cbn [bolt.buckets].
  destruct (bolt.root (GametimeDB counter) !! discord.User.ID user) as [kv |] eqn:Hb;
    [| reflexivity].
  rewrite (ForEach_decode _ _ kv) by exact Hb. reflexivity.
Qed.

(** C4. A query for an identity without a namespace returns the error
    "user never played", which is none of the errors of the store; a query
    for an identity with a namespace returns no error and the map that has,
    for every stored pair of the namespace, the activity with its decoded
    nanoseconds, and nothing else. *)
Theorem query_no_history_or_totals (counter : TimeCounter) (user : discord.User.t) :
  bolt.opened (GametimeDB counter) = true ->
  (bolt.root (GametimeDB counter) !! discord.User.ID user = None ->
   snd (GetUserGametime counter user) = Some (errors_New "user never played") /\
   errors_New "user never played" <> ErrDatabaseNotOpen /\
   errors_New "user never played" <> ErrTxNotWritable) /\
  (forall kv,
     bolt.root (GametimeDB counter) !! discord.User.ID user = Some kv ->
     snd (GetUserGametime counter user) = None /\
     dom (fst (GetUserGametime counter user)) = dom kv /\
     forall activity,
       fst (GetUserGametime counter user) !! activity
       = decode_played <$> kv !! activity).
Proof.
  intros Hopen. rewrite GetUserGametime_cases, Hopen. split.
  - intros ->. cbn [snd]. repeat split; discriminate.
  - intros kv ->. cbn [fst snd]. split; [reflexivity |]. split.
    + apply dom_fmap_L.
    + intros activity. apply lookup_fmap.
Qed.

Lemma query_no_history_or_totals_witness :
  snd (GetUserGametime (run.counter ∅ {[ "7"%string := ∅ ]}) run.alice)
  = Some (errors_New "user never played") /\
  snd (GetUserGametime (run.counter ∅ {[ "7"%string := ∅ ]}) run.bob) = None /\
  fst (GetUserGametime
         (run.counter ∅ {[ "42"%string := {[ "A"%string := run.stored_form 150 ]} ]})
         run.alice) !! "A"%string = Some 150.
Proof.
  split; [| split].
  - apply (query_no_history_or_totals (run.counter ∅ {[ "7"%string := ∅ ]}) run.alice);
      reflexivity.
  - apply (query_no_history_or_totals (run.counter ∅ {[ "7"%string := ∅ ]}) run.bob
             eq_refl) with (kv := ∅).
    reflexivity.
  - pose proof (query_no_history_or_totals
                  (run.counter ∅ {[ "42"%string := {[ "A"%string := run.stored_form 150 ]} ]})
                  run.alice eq_refl) as [_ H].
    destruct (H {[ "A"%string := run.stored_form 150 ]} eq_refl) as (_ & _ & Hlook).
    rewrite Hlook. reflexivity.
Defined.

End query_facts.

(** ** The codec round trip *)

Section codec_claims.

(** C7. For every 64-bit signed [n], [PutVarint] into a zeroed buffer of
    [MaxVarintLen64] bytes succeeds and leaves the bytes after the varint
    zero, and [Varint] on that buffer gives [n] back; the merge reads [n]
    from such an entry and the query reports [n] for it. *)
Theorem varint_round_trip (n : Z) :
  in_int64 n ->
  exists stored k,
    binary.PutVarint (make (Z.to_nat binary.MaxVarintLen64)) n = Some (stored, k) /\
    length stored = Z.to_nat binary.MaxVarintLen64 /\
    drop (Z.to_nat k) stored
    = repeat Byte.x00 (Z.to_nat (binary.MaxVarintLen64 - k)) /\
    binary.Varint stored = (n, k) /\
    (forall now start,
       merged_total (Some stored) now start = time.saturate (now + n - start)) /\
    (forall counter user kv activity,
       bolt.opened (GametimeDB counter) = true ->
       bolt.root (GametimeDB counter) !! discord.User.ID user = Some kv ->
       kv !! activity = Some stored ->
       fst (GetUserGametime counter user) !! activity = Some n).
Proof.
  intros Hn.
  destruct (encode_played_total n) as (stored & k & Hput & Henc & Hlen & Hk & Hzero).
  exists stored, k. split; [exact Hput |]. split; [exact Hlen |].
  split; [exact Hzero |].
  pose proof (Varint_PutVarint _ _ _ _ Hn Hput) as Hvar.
  split; [exact Hvar |]. split.
  - intros now start. unfold merged_total, decode_played. now rewrite Hvar.
  - intros counter user kv activity Hopen Hkv Hact.
    rewrite GetUserGametime_cases, Hopen, Hkv. cbn [fst].
    rewrite lookup_fmap, Hact. cbn. unfold decode_played. now rewrite Hvar.
Qed.

Lemma varint_round_trip_witness :
  exists stored k,
    binary.PutVarint (make (Z.to_nat binary.MaxVarintLen64)) (-150) = Some (stored, k) /\
    length stored = Z.to_nat binary.MaxVarintLen64 /\
    drop (Z.to_nat k) stored
    = repeat Byte.x00 (Z.to_nat (binary.MaxVarintLen64 - k)) /\
    binary.Varint stored = (-150, k) /\
    (forall now start,
       merged_total (Some stored) now start = time.saturate (now + -150 - start)) /\
    (forall counter user kv activity,
       bolt.opened (GametimeDB counter) = true ->
       bolt.root (GametimeDB counter) !! discord.User.ID user = Some kv ->
       kv !! activity = Some stored ->
       fst (GetUserGametime counter user) !! activity = Some (-150)).
Proof.
  apply (varint_round_trip (-150)).
  unfold in_int64, minInt64, maxInt64. lia.
Defined.

End codec_claims.

(** ** The sum of a merge *)

Section sum_claims.

Lemma SaveGametime_done (p p' : PlayingUser) (t t' : bolt.Tx) (c c' : time.Clock) :
  SaveGametime p t c = (p', t', c', None) ->
  exists newPlayed,
    bolt.writable t = true /\ String.length (UserID p) <> 0%nat /\
    valid_key (GameID p) /\
    encode_played
      (merged_total (entry (bolt.buckets t) (UserID p) (GameID p))
                    (time.next c) (StartTime p)) = Some newPlayed /\
    p' = set_StartTime p (time.next (tick c)) /\
    t' = with_entry t (UserID p) (GameID p) newPlayed /\
    c' = tick (tick c).
Proof.
  intros Hrun. pose proof (SaveGametime_result p t c) as Hres.
  rewrite Hrun in Hres. inversion Hres; subst. eauto 10.
Qed.

Lemma SaveGametime_succeeds (p : PlayingUser) (t : bolt.Tx) (c : time.Clock) :
  bolt.writable t = true -> String.length (UserID p) <> 0%nat ->
  valid_key (GameID p) ->
  exists newPlayed,
    encode_played
      (merged_total (entry (bolt.buckets t) (UserID p) (GameID p))
                    (time.next c) (StartTime p)) = Some newPlayed /\
    SaveGametime p t c
    = (set_StartTime p (time.next (tick c)),
       with_entry t (UserID p) (GameID p) newPlayed, tick (tick c), None).
Proof.
  intros Hw Hname Hkey. pose proof (SaveGametime_result p t c) as Hres.
  inversion Hres as [Hw' | ? Hname' | ? ? Hkey' | newPlayed ? ? ? Henc]; subst;
    try congruence; try contradiction.
  exists newPlayed. split; [exact Henc | reflexivity].
Qed.

Lemma valid_keyb_spec (key : string) : valid_keyb key = true <-> valid_key key.
Proof.
  unfold valid_keyb, valid_key. rewrite andb_true_iff, negb_true_iff.
  rewrite Nat.eqb_neq, Z.leb_le. reflexivity.
Qed.

(** [SaveGametime] as one case distinction. *)
Lemma SaveGametime_eq (p : PlayingUser) (t : bolt.Tx) (c : time.Clock) :
  SaveGametime p t c
  = if negb (bolt.writable t) then (p, t, c, Some ErrTxNotWritable)
    else if (String.length (UserID p) =? 0)%nat then
      (p, t, c, Some ErrBucketNameRequired)
    else if valid_keyb (GameID p) then
      (set_StartTime p (time.next (tick c)),
       with_entry t (UserID p) (GameID p)
         (stored_form
            (merged_total (entry (bolt.buckets t) (UserID p) (GameID p))
                          (time.next c) (StartTime p))),
       tick (tick c), None)
    else (p, with_bucket t (UserID p), tick c, Some (key_error (GameID p))).
Proof.
  pose proof (SaveGametime_result p t c) as Hres.
  inversion Hres as [Hw Heq | Hw Hname Heq | Hw Hname Hkey Heq
                     | newPlayed Hw Hname Hkey Henc Heq];
    clear Hres; rewrite Hw; cbn [negb]; try reflexivity.
  - rewrite Hname. reflexivity.
  - apply Nat.eqb_neq in Hname. rewrite Hname.
    destruct (valid_keyb (GameID p)) eqn:Hb; [| reflexivity].
    apply valid_keyb_spec in Hb. contradiction.
  - apply Nat.eqb_neq in Hname. rewrite Hname.
    apply valid_keyb_spec in Hkey. rewrite Hkey.
    unfold stored_form. rewrite Henc. reflexivity.
Qed.

Lemma decode_merged (found : option (list byte)) (now start : Z)
    (newPlayed : list byte) :
  encode_played (merged_total found now start) = Some newPlayed ->
  decode_played newPlayed
  = time.saturate (played_before found + (now - start)).
Proof.
  intros Henc. rewrite <- merged_total_sum.
  apply decode_encode. split; [| exact Henc].
  rewrite merged_total_sum. apply saturate_range.
Qed.

(** C3, as amended. After a merge that returns no error the entry of the
    session holds the total it held before (zero when there was none) plus
    the elapsed nanoseconds, brought back into the 64-bit range by the
    saturation of [time.Sub]: it is exactly the sum whenever the sum is a
    64-bit value.  The same holds for the in-memory ledger of
    [countPlaytime]. *)
Theorem merge_adds_elapsed :
  (forall (p p' : PlayingUser) (t t' : bolt.Tx) (c c' : time.Clock),
     SaveGametime p t c = (p', t', c', None) ->
     let v := played_before (entry (bolt.buckets t) (UserID p) (GameID p)) in
     let e := time.next c - StartTime p in
     exists stored',
       entry (bolt.buckets t') (UserID p) (GameID p) = Some stored' /\
       decode_played stored' = time.saturate (v + e) /\
       (in_int64 (v + e) -> decode_played stored' = v + e)) /\
  (forall (g g' : Globals) (user : discord.User.t) (game : discord.Game.t)
          (start : Z) (env env' : Env),
     countPlaytime_end g user game start env = Some (g', env') ->
     let activity := Itoa (discord.Game.ID game) in
     let v := default 0 (played (playedTime g) (discord.User.ID user) activity) in
     let e := time.next (clock env) - start in
     played (playedTime g') (discord.User.ID user) activity
     = Some (time.saturate (v + e)) /\
     (in_int64 (v + e) ->
      played (playedTime g') (discord.User.ID user) activity = Some (v + e))).
Proof.
  split.
  - intros p p' t t' c c' Hrun v e.
    destruct (SaveGametime_done _ _ _ _ _ _ Hrun)
      as (newPlayed & _ & _ & _ & Henc & _ & -> & _).
    exists newPlayed. rewrite entry_with_entry.
    pose proof (decode_merged _ _ _ _ Henc) as Hdec. fold v e in Hdec.
    split; [reflexivity |]. split; [exact Hdec |].
    intros Hin. now rewrite Hdec, saturate_in_range.
  - intros g g' user game start env env' Hrun activity v e.
    unfold countPlaytime_end in Hrun.
    destruct (playedTime g !! discord.User.ID user) as [games |] eqn:Hgames;
      [| discriminate].
    assert (Hval : played (playedTime g') (discord.User.ID user) activity
                   = Some (time.saturate (v + e))).
    { subst v e. unfold played at 2. rewrite Hgames. fold activity in Hrun.
      destruct (games !! activity) as [old |] eqn:Hold;
        unfold time.Since, time.Now, time.Sub, time.Add, time.Nanoseconds in Hrun;
        injection Hrun as <- _; unfold played; cbn [playedTime];
        rewrite !lookup_insert_eq; f_equal; cbn [default from_option id];
        unfold time.next; f_equal; lia. }
    split; [exact Hval |].
    intros Hin. now rewrite Hval, saturate_in_range.
Qed.

Lemma merge_adds_elapsed_witness :
  (exists p' t' c' stored',
     SaveGametime (run.session "42" "A" 1000)
       (run.writing {[ "42"%string := {[ "A"%string := run.stored_form 100 ]} ]})
       (time.ticking [1250; 1250] 0) = (p', t', c', None) /\
     entry (bolt.buckets t') "42" "A" = Some stored' /\
     decode_played stored' = 100 + (1250 - 1000)) /\
  (exists g' env',
     countPlaytime_end
       {| usersPlaying := {[ "42"%string ]};
          playedTime := {[ "42"%string := {[ "65"%string := 100 ]} ]} |}
       run.alice run.chess 1000 (run.at_times [1250]) = Some (g', env') /\
     played (playedTime g') "42" "65" = Some (100 + (1250 - 1000))).
Proof.
  split.
  - destruct (SaveGametime (run.session "42" "A" 1000)
                (run.writing {[ "42"%string := {[ "A"%string := run.stored_form 100 ]} ]})
                (time.ticking [1250; 1250] 0)) as [[[p' t'] c'] err] eqn:Hrun.
    assert (Herr : err = None).
    { apply (f_equal snd) in Hrun. vm_compute in Hrun. now subst err. }
    subst err.
    destruct (proj1 merge_adds_elapsed _ _ _ _ _ _ Hrun)
      as (stored' & Hentry & _ & Hsum).
    exists p', t', c', stored'. split; [reflexivity |]. split; [exact Hentry |].
    apply Hsum. vm_compute. split; discriminate.
  - destruct (countPlaytime_end
                {| usersPlaying := {[ "42"%string ]};
                   playedTime := {[ "42"%string := {[ "65"%string := 100 ]} ]} |}
                run.alice run.chess 1000 (run.at_times [1250]))
      as [[g' env'] |] eqn:Hrun; [| vm_compute in Hrun; discriminate].
    exists g', env'. split; [reflexivity |].
    apply (proj2 merge_adds_elapsed _ _ _ _ _ _ _ Hrun).
    vm_compute. split; discriminate.
Defined.

(** The stored total at the upper bound of the 64-bit range, one more
    nanosecond elapsed: the entry stays at the bound, which is neither the
    sum nor the sum wrapped to 64 bits. *)
Lemma merge_sum_fails_at_the_bound :
  ~ (forall (p p' : PlayingUser) (t t' : bolt.Tx) (c c' : time.Clock) stored',
       SaveGametime p t c = (p', t', c', None) ->
       entry (bolt.buckets t') (UserID p) (GameID p) = Some stored' ->
       let v := played_before (entry (bolt.buckets t) (UserID p) (GameID p)) in
       let e := time.next c - StartTime p in
       decode_played stored' = v + e \/ decode_played stored' = int64 (v + e)).
Proof.
  intros Hclaim.
  destruct (SaveGametime_succeeds (run.session "42" "A" 0)
              (run.writing
                 {[ "42"%string := {[ "A"%string := run.stored_form maxInt64 ]} ]})
              (time.ticking [1; 1] 0)) as (newPlayed & Henc & Hrun).
  { reflexivity. }
  { cbn. discriminate. }
  { split; cbn; [discriminate | unfold bolt.MaxKeySize; lia]. }
  specialize (Hclaim _ _ _ _ _ _ newPlayed Hrun (entry_with_entry _ _ _ _)).
  rewrite (decode_merged _ _ _ _ Henc) in Hclaim.
  vm_compute in Hclaim. destruct Hclaim as [Hsum | Hwrap].
  - discriminate Hsum.
  - discriminate Hwrap.
Qed.

End sum_claims.

(** ** Entries that do not decode *)

Section decode_claims.

(** An entry whose ten bytes all carry the continuation bit does not decode,
    and the merge returns no error. *)
Lemma decode_failure_is_not_surfaced :
  ~ (forall (p : PlayingUser) (t : bolt.Tx) (c : time.Clock) (stored : list byte),
       entry (bolt.buckets t) (UserID p) (GameID p) = Some stored ->
       snd (binary.Varint stored) <= 0 ->
       exists err, snd (SaveGametime p t c) = Some err).
Proof.
  intros Hclaim.
  destruct (Hclaim (run.session "42" "A" 1000)
              (run.writing {[ "42"%string := {[ "A"%string := run.unterminated ]} ]})
              (time.ticking [1250; 1250] 0) run.unterminated) as [err Herr].
  - reflexivity.
  - vm_compute. discriminate.
  - vm_compute in Herr. discriminate Herr.
Qed.

(** C2, as amended. A stored value that fails to decode is read as zero:
    the merge returns no error on its account and overwrites the entry with
    the elapsed time alone, and the query reports zero for it, without an
    error. *)
Theorem decode_failure_counts_as_zero (stored : list byte) :
  snd (binary.Varint stored) <= 0 ->
  (forall (p : PlayingUser) (t : bolt.Tx) (c : time.Clock),
     bolt.writable t = true -> String.length (UserID p) <> 0%nat ->
     valid_key (GameID p) ->
     entry (bolt.buckets t) (UserID p) (GameID p) = Some stored ->
     exists newPlayed,
       encode_played (time.saturate (time.next c - StartTime p)) = Some newPlayed /\
       SaveGametime p t c
       = (set_StartTime p (time.next (tick c)),
          with_entry t (UserID p) (GameID p) newPlayed, tick (tick c), None)) /\
  (forall (counter : TimeCounter) (user : discord.User.t) kv activity,
     bolt.opened (GametimeDB counter) = true ->
     bolt.root (GametimeDB counter) !! discord.User.ID user = Some kv ->
     kv !! activity = Some stored ->
     snd (GetUserGametime counter user) = None /\
     fst (GetUserGametime counter user) !! activity = Some 0).
Proof.
  intros Hfail. pose proof (Varint_failure stored Hfail) as Hzero. split.
  - intros p t c Hw Hname Hkey Hentry.
    destruct (SaveGametime_succeeds p t c Hw Hname Hkey) as (newPlayed & Henc & Hrun).
    exists newPlayed. split; [| exact Hrun].
    rewrite Hentry in Henc. unfold merged_total in Henc.
    rewrite Hzero in Henc. rewrite <- Henc. do 2 f_equal. lia.
  - intros counter user kv activity Hopen Hkv Hact.
    rewrite GetUserGametime_cases, Hopen, Hkv. cbn [fst snd].
    split; [reflexivity |]. rewrite lookup_fmap, Hact. cbn. now rewrite Hzero.
Qed.

Lemma decode_failure_counts_as_zero_witness :
  (exists newPlayed,
     encode_played (time.saturate (1250 - 1000)) = Some newPlayed /\
     SaveGametime (run.session "42" "A" 1000)
       (run.writing {[ "42"%string := {[ "A"%string := run.unterminated ]} ]})
       (time.ticking [1250; 1260] 0)
     = (run.session "42" "A" 1260,
        with_entry
          (run.writing {[ "42"%string := {[ "A"%string := run.unterminated ]} ]})
          "42" "A" newPlayed,
        tick (tick (time.ticking [1250; 1260] 0)), None)) /\
  fst (GetUserGametime
         (run.counter ∅ {[ "42"%string := {[ "A"%string := run.unterminated ]} ]})
         run.alice) !! "A"%string = Some 0.
Proof.
  assert (Hfail : snd (binary.Varint run.unterminated) <= 0)
    by (vm_compute; discriminate).
  split.
  - apply (proj1 (decode_failure_counts_as_zero run.unterminated Hfail)
             (run.session "42" "A" 1000)
             (run.writing {[ "42"%string := {[ "A"%string := run.unterminated ]} ]})
             (time.ticking [1250; 1260] 0)).
    + reflexivity.
    + cbn. discriminate.
    + split; cbn; [discriminate | unfold bolt.MaxKeySize; lia].
    + reflexivity.
  - apply (proj2 (decode_failure_counts_as_zero run.unterminated Hfail)
             (run.counter ∅ {[ "42"%string := {[ "A"%string := run.unterminated ]} ]})
             run.alice {[ "A"%string := run.unterminated ]} "A"%string);
      reflexivity.
Defined.

End decode_claims.

(** ** The two branches of the merge *)

Section branch_claims.

Lemma with_entry_twice (t : bolt.Tx) (identity activity : string)
    (old new : list byte) :
  with_entry (with_entry t identity activity old) identity activity new
  = with_entry t identity activity new.
Proof.
  unfold with_entry. cbn [bolt.writable bolt.buckets]. f_equal.
  rewrite lookup_insert_eq. cbn [default from_option id].
  now rewrite !insert_insert_eq.
Qed.

(** C10. With no entry for the session, and with an entry that holds zero,
    [SaveGametime] ends the same way.  On a writable transaction, for a
    session with a user ID and a key bolt accepts, both paths succeed: they
    write the same bytes, the stored form of [now - StartTime] (which decodes
    to it), leave the same buckets, reset [StartTime] to the same second
    reading of the clock and return no error.  Where the merge fails, both
    paths fail with the same error, the same session and the same reads of
    the clock.  The two branches of [countPlaytime] agree in the same way:
    both store [now - start] and end in the same globals. *)
Theorem branches_agree_on_zero :
  (forall (p : PlayingUser) (t : bolt.Tx) (c : time.Clock) (zero : list byte),
     bolt.writable t = true -> String.length (UserID p) <> 0%nat ->
     valid_key (GameID p) ->
     entry (bolt.buckets t) (UserID p) (GameID p) = None ->
     decode_played zero = 0 ->
     exists newPlayed,
       encode_played (time.saturate (time.next c - StartTime p)) = Some newPlayed /\
       decode_played newPlayed = time.saturate (time.next c - StartTime p) /\
       SaveGametime p t c
       = (set_StartTime p (time.next (tick c)),
          with_entry t (UserID p) (GameID p) newPlayed, tick (tick c), None) /\
       SaveGametime p (with_entry t (UserID p) (GameID p) zero) c
       = (set_StartTime p (time.next (tick c)),
          with_entry t (UserID p) (GameID p) newPlayed, tick (tick c), None)) /\
  (forall (p : PlayingUser) (t : bolt.Tx) (c : time.Clock) (zero : list byte),
     entry (bolt.buckets t) (UserID p) (GameID p) = None ->
     decode_played zero = 0 ->
     exists p' t1 t0 c' err,
       SaveGametime p t c = (p', t1, c', err) /\
       SaveGametime p (with_entry t (UserID p) (GameID p) zero) c
       = (p', t0, c', err) /\
       (err = None ->
        t1 = t0 /\
        entry (bolt.buckets t1) (UserID p) (GameID p)
        = encode_played (time.saturate (time.next c - StartTime p)))) /\
  (forall (g : Globals) (user : discord.User.t) (game : discord.Game.t)
          (start : Z) (env : Env) games,
     playedTime g !! discord.User.ID user = Some games ->
     games !! Itoa (discord.Game.ID game) = None ->
     exists g' env',
       countPlaytime_end g user game start env = Some (g', env') /\
       countPlaytime_end
         {| usersPlaying := usersPlaying g;
            playedTime :=
              <[discord.User.ID user := <[Itoa (discord.Game.ID game) := 0]> games]>
                (playedTime g) |}
         user game start env = Some (g', env') /\
       played (playedTime g') (discord.User.ID user) (Itoa (discord.Game.ID game))
       = Some (time.saturate (time.next (clock env) - start))).
Proof.
  split; [| split].
  - intros p t c zero Hw Hname Hkey Habsent Hzero.
    destruct (SaveGametime_succeeds p t c Hw Hname Hkey) as (new1 & Henc1 & Hrun1).
    destruct (SaveGametime_succeeds p (with_entry t (UserID p) (GameID p) zero) c
                Hw Hname Hkey) as (new0 & Henc0 & Hrun0).
    rewrite Habsent in Henc1. rewrite entry_with_entry in Henc0.
    unfold merged_total in Henc1, Henc0. rewrite Hzero in Henc0.
    replace (time.next c + 0 - StartTime p) with (time.next c - StartTime p)
      in Henc0 by lia.
    assert (Hsame : new0 = new1) by congruence. subst new0.
    rewrite with_entry_twice in Hrun0.
    exists new1. split; [exact Henc1 |]. split; [| split; assumption].
    apply decode_encode. split; [apply saturate_range | exact Henc1].
  - intros p t c zero Habsent Hzero.
    rewrite !SaveGametime_eq, entry_with_entry, Habsent.
    cbn [with_entry bolt.writable].
    destruct (bolt.writable t); cbn [negb];
      [| eexists _, _, _, _, _; (split; [reflexivity |]); (split; [reflexivity |]);
         intros Hnone; discriminate Hnone].
    destruct (String.length (UserID p) =? 0)%nat;
      [eexists _, _, _, _, _; (split; [reflexivity |]); (split; [reflexivity |]);
         intros Hnone; discriminate Hnone |].
    destruct (valid_keyb (GameID p)) eqn:Hkey;
      [| eexists _, _, _, _, _; (split; [reflexivity |]); (split; [reflexivity |]);
         intros Hnone; discriminate Hnone].
    assert (Hsame : merged_total (Some zero) (time.next c) (StartTime p)
                    = merged_total None (time.next c) (StartTime p)).
    { unfold merged_total. rewrite Hzero. f_equal. lia. }
    rewrite Hsame.
    eexists _, _, _, _, _. split; [reflexivity |]. split.
    { rewrite with_entry_twice. reflexivity. }
    intros _. split; [reflexivity |].
    rewrite entry_with_entry. unfold stored_form, merged_total.
    destruct (encode_played_some (time.saturate (time.next c - StartTime p)))
      as [stored ->]. reflexivity.
  - intros g user game start env games Hgames Habsent.
    unfold countPlaytime_end. cbn [usersPlaying playedTime].
    rewrite Hgames, Habsent, !lookup_insert_eq.
    unfold time.Since, time.Now, time.Sub, time.Add, time.Nanoseconds.
    rewrite !insert_insert_eq.
    replace (time.reading (clock env) (time.reads (clock env)) + 0 - start)
      with (time.reading (clock env) (time.reads (clock env)) - start) by lia.
    eexists _, _. split; [reflexivity |]. split; [reflexivity |].
    unfold played. cbn [playedTime]. rewrite !lookup_insert_eq. reflexivity.
Qed.

Lemma branches_agree_on_zero_witness :
  (exists newPlayed,
     encode_played (time.saturate (1250 - 1000)) = Some newPlayed /\
     decode_played newPlayed = time.saturate (1250 - 1000) /\
     SaveGametime (run.session "42" "A" 1000) (run.writing ∅)
       (time.ticking [1250; 1260] 0)
     = (run.session "42" "A" 1260,
        with_entry (run.writing ∅) "42" "A" newPlayed,
        tick (tick (time.ticking [1250; 1260] 0)), None) /\
     SaveGametime (run.session "42" "A" 1000)
       (with_entry (run.writing ∅) "42" "A" (run.stored_form 0))
       (time.ticking [1250; 1260] 0)
     = (run.session "42" "A" 1260,
        with_entry (run.writing ∅) "42" "A" newPlayed,
        tick (tick (time.ticking [1250; 1260] 0)), None)) /\
  (exists g' env',
     countPlaytime_end
       {| usersPlaying := {[ "42"%string ]}; playedTime := {[ "42"%string := ∅ ]} |}
       run.alice run.chess 1000 (run.at_times [1250]) = Some (g', env') /\
     countPlaytime_end
       {| usersPlaying := {[ "42"%string ]};
          playedTime := <[ "42"%string := <[ "65"%string := 0 ]> ∅ ]>
                          {[ "42"%string := ∅ ]} |}
       run.alice run.chess 1000 (run.at_times [1250]) = Some (g', env') /\
     played (playedTime g') "42" "65" = Some (time.saturate (1250 - 1000))).
Proof.
  assert (Hname : String.length "42" <> 0%nat) by (cbn; discriminate).
  assert (Hkey : valid_key "A").
  { split; cbn; [discriminate | unfold bolt.MaxKeySize; lia]. }
  assert (Hzero : decode_played (run.stored_form 0) = 0)
    by (vm_compute; reflexivity).
  split.
  - exact (proj1 branches_agree_on_zero (run.session "42" "A" 1000) (run.writing ∅)
             (time.ticking [1250; 1260] 0) (run.stored_form 0)
             eq_refl Hname Hkey eq_refl Hzero).
  - exact (proj2 (proj2 branches_agree_on_zero)
             {| usersPlaying := {[ "42"%string ]};
                playedTime := {[ "42"%string := ∅ ]} |}
             run.alice run.chess 1000 (run.at_times [1250]) ∅ eq_refl eq_refl).
Defined.

End branch_claims.

(** ** Ending a session: atomicity and frame *)

Section end_facts.

(** [EndGametime], case by case. *)
Lemma EndGametime_cases (counter : TimeCounter) (pUser : PlayingUser) (env : Env) :
  EndGametime counter pUser env
  = if bolt.opened (GametimeDB counter) then
      match SaveGametime pUser (run.writing (bolt.root (GametimeDB counter)))
              (clock env) with
      | (_, t, c, None) =>
          ended counter pUser env
            {| bolt.opened := true; bolt.root := bolt.buckets t |} c
            [LogSaved (UserID pUser)]
      | (_, _, c, Some err) =>
          ended counter pUser env (GametimeDB counter) c
            [LogUpdateError err; LogSaved (UserID pUser)]
      end
    else
      ended counter pUser env (GametimeDB counter) (clock env)
        [LogUpdateError ErrDatabaseNotOpen; LogSaved (UserID pUser)].
Proof.
  unfold EndGametime, bolt.Update, ended, run.writing.
  destruct (bolt.opened (GametimeDB counter)) eqn:Hopen; cbn [negb].
  - destruct (SaveGametime pUser _ (clock env)) as [[[p' t'] c'] [err |]];
      unfold log_add, with_clock; cbn [log clock];
      rewrite <- ?app_assoc; reflexivity.
  - unfold log_add, with_clock; cbn [log clock].
    rewrite <- app_assoc. reflexivity.
Qed.

(** The store after a merge through [EndGametime] that finds a valid
    session and an open store. *)
Lemma EndGametime_commits (counter : TimeCounter) (pUser : PlayingUser) (env : Env) :
  bolt.opened (GametimeDB counter) = true ->
  String.length (UserID pUser) <> 0%nat -> valid_key (GameID pUser) ->
  exists newPlayed,
    encode_played
      (merged_total (entry (bolt.root (GametimeDB counter)) (UserID pUser) (GameID pUser))
                    (time.next (clock env)) (StartTime pUser)) = Some newPlayed /\
    EndGametime counter pUser env
    = ended counter pUser env
        {| bolt.opened := true;
           bolt.root :=
             bolt.buckets (with_entry (run.writing (bolt.root (GametimeDB counter)))
                                      (UserID pUser) (GameID pUser) newPlayed) |}
        (tick (tick (clock env))) [LogSaved (UserID pUser)].
Proof.
  intros Hopen Hname Hkey.
  destruct (SaveGametime_succeeds pUser (run.writing (bolt.root (GametimeDB counter)))
              (clock env) eq_refl Hname Hkey) as (newPlayed & Henc & Hrun).
  exists newPlayed. split; [exact Henc |].
  rewrite EndGametime_cases, Hopen, Hrun. reflexivity.
Qed.

(** The store after a merge through [EndGametime] that fails. *)
Lemma EndGametime_rolls_back (counter : TimeCounter) (pUser : PlayingUser) (env : Env) :
  bolt.opened (GametimeDB counter) = false \/
  String.length (UserID pUser) = 0%nat \/ ~ valid_key (GameID pUser) ->
  exists err c,
    EndGametime counter pUser env
    = ended counter pUser env (GametimeDB counter) c
        [LogUpdateError err; LogSaved (UserID pUser)] /\
    (err = ErrDatabaseNotOpen \/ err = ErrBucketNameRequired \/
     err = key_error (GameID pUser)).
Proof.
  intros Hfail. rewrite EndGametime_cases.
  destruct (bolt.opened (GametimeDB counter)) eqn:Hopen; [| eauto 6].
  pose proof (SaveGametime_result pUser (run.writing (bolt.root (GametimeDB counter)))
                (clock env)) as Hres.
  inversion Hres as [Hw | Hw Hname | Hw Hname Hkey | newPlayed Hw Hname Hkey Henc];
    subst.
  - discriminate Hw.
  - eauto 6.
  - eauto 6.
  - destruct Hfail as [Hf | [Hf | Hf]]; [discriminate | contradiction | contradiction].
Qed.

(** An entry that does not decode: the merge of [EndGametime] commits, the
    store changes and no error is logged. *)
Lemma end_merge_commits_on_decode_failure :
  ~ (forall (counter : TimeCounter) (pUser : PlayingUser) (env : Env) stored,
       entry (bolt.root (GametimeDB counter)) (UserID pUser) (GameID pUser)
       = Some stored ->
       snd (binary.Varint stored) <= 0 ->
       GametimeDB (fst (EndGametime counter pUser env)) = GametimeDB counter /\
       exists err, In (LogUpdateError err) (log (snd (EndGametime counter pUser env)))).
Proof.
  intros Hclaim.
  destruct (Hclaim
              (run.counter ∅ {[ "42"%string := {[ "A"%string := run.unterminated ]} ]})
              (run.session "42" "A" 1000) (run.at_times [1250; 1250])
              run.unterminated) as [Hdb _].
  - reflexivity.
  - vm_compute. discriminate.
  - apply (f_equal (fun db => entry (bolt.root db) "42" "A")) in Hdb.
    vm_compute in Hdb. discriminate Hdb.
Qed.

(** C6, as amended. A merge run by [EndGametime] is atomic. When the store
    is closed, the namespace cannot be created or the write fails, the
    transaction is rolled back: the store is exactly as before, and the
    error reaches [EndGametime], which logs it.  Otherwise the transaction
    commits the whole merge: the store differs from the one before in the
    entry of the session and in nothing else.  A stored value that does not
    decode is not a failure of the merge. *)
Theorem end_merge_is_atomic (counter : TimeCounter) (pUser : PlayingUser) (env : Env) :
  (bolt.opened (GametimeDB counter) = false \/
   String.length (UserID pUser) = 0%nat \/ ~ valid_key (GameID pUser) ->
   GametimeDB (fst (EndGametime counter pUser env)) = GametimeDB counter /\
   exists err,
     log (snd (EndGametime counter pUser env))
     = log env ++ [LogUpdateError err; LogSaved (UserID pUser)] /\
     (err = ErrDatabaseNotOpen \/ err = ErrBucketNameRequired \/
      err = key_error (GameID pUser))) /\
  (bolt.opened (GametimeDB counter) = true ->
   String.length (UserID pUser) <> 0%nat -> valid_key (GameID pUser) ->
   exists newPlayed,
     encode_played
       (merged_total
          (entry (bolt.root (GametimeDB counter)) (UserID pUser) (GameID pUser))
          (time.next (clock env)) (StartTime pUser)) = Some newPlayed /\
     bolt.root (GametimeDB (fst (EndGametime counter pUser env)))
     = <[UserID pUser :=
           <[GameID pUser := newPlayed]>
             (default ∅ (bolt.root (GametimeDB counter) !! UserID pUser))]>
         (bolt.root (GametimeDB counter)) /\
     log (snd (EndGametime counter pUser env))
     = log env ++ [LogSaved (UserID pUser)]).
Proof.
  split.
  - intros Hfail.
    destruct (EndGametime_rolls_back counter pUser env Hfail) as (err & c & -> & Herr).
    cbn [fst snd ended GametimeDB log]. eauto.
  - intros Hopen Hname Hkey.
    destruct (EndGametime_commits counter pUser env Hopen Hname Hkey)
      as (newPlayed & Henc & ->).
    exists newPlayed. cbn [fst snd ended GametimeDB log bolt.root].
    split; [exact Henc |]. split; reflexivity.
Qed.

Lemma end_merge_is_atomic_witness :
  (GametimeDB (fst (EndGametime (run.counter ∅ {[ "7"%string := ∅ ]})
                      (run.session "42" "" 1000) (run.at_times [1250; 1250])))
   = run.store {[ "7"%string := ∅ ]} /\
   exists err,
     log (snd (EndGametime (run.counter ∅ {[ "7"%string := ∅ ]})
                 (run.session "42" "" 1000) (run.at_times [1250; 1250])))
     = [] ++ [LogUpdateError err; LogSaved "42"] /\
     (err = ErrDatabaseNotOpen \/ err = ErrBucketNameRequired \/
      err = key_error "")) /\
  (exists newPlayed,
     encode_played
       (merged_total (entry {[ "7"%string := ∅ ]} "42" "A") 1250 1000)
     = Some newPlayed /\
     bolt.root (GametimeDB (fst (EndGametime (run.counter ∅ {[ "7"%string := ∅ ]})
                                   (run.session "42" "A" 1000)
                                   (run.at_times [1250; 1250]))))
     = <[ "42"%string := <[ "A"%string := newPlayed ]> ∅ ]> {[ "7"%string := ∅ ]} /\
     log (snd (EndGametime (run.counter ∅ {[ "7"%string := ∅ ]})
                 (run.session "42" "A" 1000) (run.at_times [1250; 1250])))
     = [] ++ [LogSaved "42"]).
Proof.
  assert (Hbad : ~ valid_key "").
  { intros [Hlen _]. apply Hlen. reflexivity. }
  assert (Hname : String.length "42" <> 0%nat) by (cbn; discriminate).
  assert (Hkey : valid_key "A").
  { split; cbn; [discriminate | unfold bolt.MaxKeySize; lia]. }
  split.
  - exact (proj1 (end_merge_is_atomic (run.counter ∅ {[ "7"%string := ∅ ]})
                    (run.session "42" "" 1000) (run.at_times [1250; 1250]))
             (or_intror (or_intror Hbad))).
  - exact (proj2 (end_merge_is_atomic (run.counter ∅ {[ "7"%string := ∅ ]})
                    (run.session "42" "A" 1000) (run.at_times [1250; 1250]))
             eq_refl Hname Hkey).
Defined.

End end_facts.

(** ** The frame of a merge *)

Section frame_claims.

Lemma SaveGametime_frame (p : PlayingUser) (t : bolt.Tx) (c : time.Clock)
    (identity activity : string) :
  identity <> UserID p \/ activity <> GameID p ->
  entry (bolt.buckets (snd (fst (fst (SaveGametime p t c))))) identity activity
  = entry (bolt.buckets t) identity activity.
Proof.
  intros Hne. rewrite SaveGametime_eq.
  destruct (negb (bolt.writable t)); [reflexivity |].
  destruct (String.length (UserID p) =? 0)%nat; [reflexivity |].
  destruct (valid_keyb (GameID p)); cbn [fst snd].
  - now apply entry_with_entry_other.
  - apply entry_with_bucket.
Qed.

Lemma SaveGametime_namespace (p : PlayingUser) (t : bolt.Tx) (c : time.Clock)
    (identity : string) :
  identity <> UserID p ->
  bolt.buckets (snd (fst (fst (SaveGametime p t c)))) !! identity
  = bolt.buckets t !! identity.
Proof.
  intros Hne. rewrite SaveGametime_eq.
  destruct (negb (bolt.writable t)); [reflexivity |].
  destruct (String.length (UserID p) =? 0)%nat; [reflexivity |].
  destruct (valid_keyb (GameID p)); cbn [fst snd].
  - unfold with_entry. cbn [bolt.buckets]. now rewrite lookup_insert_ne by congruence.
  - unfold with_bucket. destruct (bolt.buckets t !! UserID p); [reflexivity |].
    cbn [bolt.buckets]. now rewrite lookup_insert_ne by congruence.
Qed.

(** The store [EndGametime] leaves, from the transaction of the merge. *)
Lemma EndGametime_root (counter : TimeCounter) (pUser : PlayingUser) (env : Env) :
  bolt.root (GametimeDB (fst (EndGametime counter pUser env)))
  = if bolt.opened (GametimeDB counter) then
      match SaveGametime pUser (run.writing (bolt.root (GametimeDB counter)))
              (clock env) with
      | (_, t, _, None) => bolt.buckets t
      | (_, _, _, Some _) => bolt.root (GametimeDB counter)
      end
    else bolt.root (GametimeDB counter).
Proof.
  rewrite EndGametime_cases.
  destruct (bolt.opened (GametimeDB counter)); [| reflexivity].
  destruct (SaveGametime pUser _ (clock env)) as [[[p' t'] c'] [err |]]; reflexivity.
Qed.

Lemma EndGametime_opened (counter : TimeCounter) (pUser : PlayingUser) (env : Env) :
  bolt.opened (GametimeDB (fst (EndGametime counter pUser env)))
  = bolt.opened (GametimeDB counter).
Proof.
  rewrite EndGametime_cases.
  destruct (bolt.opened (GametimeDB counter)) eqn:Hopen; [| exact Hopen].
  destruct (SaveGametime pUser _ (clock env)) as [[[p' t'] c'] [err |]];
    [exact Hopen | reflexivity].
Qed.

Lemma EndGametime_frame (counter : TimeCounter) (pUser : PlayingUser) (env : Env)
    (identity activity : string) :
  identity <> UserID pUser \/ activity <> GameID pUser ->
  entry (bolt.root (GametimeDB (fst (EndGametime counter pUser env)))) identity activity
  = entry (bolt.root (GametimeDB counter)) identity activity.
Proof.
  intros Hne. rewrite EndGametime_root.
  destruct (bolt.opened (GametimeDB counter)); [| reflexivity].
  pose proof (SaveGametime_frame pUser (run.writing (bolt.root (GametimeDB counter)))
                (clock env) identity activity Hne) as Hframe.
  destruct (SaveGametime pUser _ (clock env)) as [[[p' t'] c'] [err |]];
    [reflexivity | exact Hframe].
Qed.

Lemma EndGametime_namespace (counter : TimeCounter) (pUser : PlayingUser) (env : Env)
    (identity : string) :
  identity <> UserID pUser ->
  bolt.root (GametimeDB (fst (EndGametime counter pUser env))) !! identity
  = bolt.root (GametimeDB counter) !! identity.
Proof.
  intros Hne. rewrite EndGametime_root.
  destruct (bolt.opened (GametimeDB counter)); [| reflexivity].
  pose proof (SaveGametime_namespace pUser (run.writing (bolt.root (GametimeDB counter)))
                (clock env) identity Hne) as Hframe.
  destruct (SaveGametime pUser _ (clock env)) as [[[p' t'] c'] [err |]];
    [reflexivity | exact Hframe].
Qed.

(** The namespace of the session after [EndGametime] depends on the store
    only through that namespace and on whether the store is open. *)
Lemma EndGametime_local (counter counter' : TimeCounter) (pUser : PlayingUser)
    (env : Env) :
  bolt.opened (GametimeDB counter) = bolt.opened (GametimeDB counter') ->
  bolt.root (GametimeDB counter) !! UserID pUser
  = bolt.root (GametimeDB counter') !! UserID pUser ->
  bolt.root (GametimeDB (fst (EndGametime counter pUser env))) !! UserID pUser
  = bolt.root (GametimeDB (fst (EndGametime counter' pUser env))) !! UserID pUser.
Proof.
  intros Hopen Hns. rewrite !EndGametime_root, <- Hopen.
  destruct (bolt.opened (GametimeDB counter)); [| exact Hns].
  rewrite !SaveGametime_eq. unfold run.writing. cbn [bolt.writable negb].
  destruct (String.length (UserID pUser) =? 0)%nat; [exact Hns |].
  destruct (valid_keyb (GameID pUser)); [| exact Hns].
  unfold with_entry, entry. cbn [bolt.buckets bolt.writable].
  rewrite !lookup_insert_eq, Hns. reflexivity.
Qed.

Lemma Listen_app (before after : list PlayingUser) (counter : TimeCounter) (env : Env) :
  Listen (before ++ after) counter env
  = Listen after (fst (Listen before counter env)) (snd (Listen before counter env)).
Proof.
  revert counter env. induction before as [| p before IH]; intros counter env.
  - reflexivity.
  - cbn [app Listen]. destruct (EndGametime counter p env) as [counter1 env1].
    apply IH.
Qed.

Lemma Listen_namespace (received : list PlayingUser) (identity : string) :
  forall counter env,
    identity ∉ UserID <$> received ->
    bolt.root (GametimeDB (fst (Listen received counter env))) !! identity
    = bolt.root (GametimeDB counter) !! identity.
Proof.
  induction received as [| p received IH]; intros counter env Hnotin.
  - reflexivity.
  - cbn [fmap list_fmap] in Hnotin. apply not_elem_of_cons in Hnotin as [Hne Hnotin].
    cbn [Listen].
    pose proof (EndGametime_namespace counter p env identity Hne) as Hstep.
    destruct (EndGametime counter p env) as [counter1 env1]. cbn [fst] in Hstep.
    rewrite IH by exact Hnotin. exact Hstep.
Qed.

Lemma Listen_opened (received : list PlayingUser) :
  forall counter env,
    bolt.opened (GametimeDB (fst (Listen received counter env)))
    = bolt.opened (GametimeDB counter).
Proof.
  induction received as [| p received IH]; intros counter env.
  - reflexivity.
  - cbn [Listen]. pose proof (EndGametime_opened counter p env) as Hstep.
    destruct (EndGametime counter p env) as [counter1 env1]. cbn [fst] in Hstep.
    rewrite IH. exact Hstep.
Qed.

(** C9. A merge changes no entry but the one of its session: every entry of
    another identity, and every entry of the same identity for another
    activity, is after [SaveGametime], and after [EndGametime], what it was
    before.  When sessions of distinct identities are ended one after the
    other, the namespace of each identity ends up as if its session alone
    had been merged into the store the run started from. *)
Theorem merge_touches_one_entry :
  (forall (p : PlayingUser) (t : bolt.Tx) (c : time.Clock) identity activity,
     identity <> UserID p \/ activity <> GameID p ->
     entry (bolt.buckets (snd (fst (fst (SaveGametime p t c))))) identity activity
     = entry (bolt.buckets t) identity activity) /\
  (forall (counter : TimeCounter) (pUser : PlayingUser) (env : Env) identity activity,
     identity <> UserID pUser \/ activity <> GameID pUser ->
     entry (bolt.root (GametimeDB (fst (EndGametime counter pUser env))))
           identity activity
     = entry (bolt.root (GametimeDB counter)) identity activity) /\
  (forall (before after : list PlayingUser) (p : PlayingUser)
          (counter : TimeCounter) (env : Env),
     UserID p ∉ UserID <$> before -> UserID p ∉ UserID <$> after ->
     let reached := Listen before counter env in
     let alone :=
       EndGametime {| InProgress := InProgress (fst reached);
                      GametimeDB := GametimeDB counter |} p (snd reached) in
     bolt.root (GametimeDB (fst (Listen (before ++ p :: after) counter env)))
       !! UserID p
     = bolt.root (GametimeDB (fst alone)) !! UserID p).
Proof.
  split; [exact SaveGametime_frame |]. split; [exact EndGametime_frame |].
  intros before after p counter env Hbefore Hafter reached alone.
  rewrite Listen_app. fold reached. cbn [Listen].
  destruct (EndGametime (fst reached) p (snd reached)) as [counter1 env1] eqn:Hend.
  rewrite Listen_namespace by exact Hafter.
  change counter1 with (fst (counter1, env1)). rewrite <- Hend.
  subst alone. apply EndGametime_local; cbn [GametimeDB].
  - subst reached. apply Listen_opened.
  - subst reached. now apply Listen_namespace.
Qed.

Lemma merge_touches_one_entry_witness :
  entry (bolt.buckets
           (snd (fst (fst (SaveGametime (run.session "42" "A" 1000)
                             (run.writing {[ "7"%string := {[ "A"%string := run.stored_form 5 ]} ]})
                             (time.ticking [1250; 1250] 0)))))) "7" "A"
  = entry {[ "7"%string := {[ "A"%string := run.stored_form 5 ]} ]} "7" "A" /\
  entry (bolt.root
           (GametimeDB
              (fst (EndGametime
                      (run.counter ∅ {[ "42"%string := {[ "B"%string := run.stored_form 5 ]} ]})
                      (run.session "42" "A" 1000) (run.at_times [1250; 1250])))))
        "42" "B"
  = entry {[ "42"%string := {[ "B"%string := run.stored_form 5 ]} ]} "42" "B" /\
  bolt.root
    (GametimeDB
       (fst (Listen ([run.session "7" "A" 900] ++ run.session "42" "A" 1000 :: [])
               (run.counter ∅ ∅) (run.at_times [1250; 1250; 1300; 1300]))))
    !! "42"%string
  = bolt.root
      (GametimeDB
         (fst (EndGametime
                 {| InProgress :=
                      InProgress
                        (fst (Listen [run.session "7" "A" 900] (run.counter ∅ ∅)
                                (run.at_times [1250; 1250; 1300; 1300])));
                    GametimeDB := GametimeDB (run.counter ∅ ∅) |}
                 (run.session "42" "A" 1000)
                 (snd (Listen [run.session "7" "A" 900] (run.counter ∅ ∅)
                         (run.at_times [1250; 1250; 1300; 1300]))))))
      !! "42"%string.
Proof.
  assert (Hid : "7"%string <> "42"%string) by discriminate.
  assert (Hact : "B"%string <> "A"%string) by discriminate.
  assert (Hbefore : "42"%string ∉ UserID <$> [run.session "7" "A" 900]).
  { cbn. intros Hin. apply list_elem_of_singleton in Hin. discriminate Hin. }
  assert (Hafter : "42"%string ∉ UserID <$> @nil PlayingUser)
    by apply not_elem_of_nil.
  split; [| split].
  - exact (proj1 merge_touches_one_entry (run.session "42" "A" 1000) _ _ "7"%string
             "A"%string (or_introl Hid)).
  - exact (proj1 (proj2 merge_touches_one_entry)
             (run.counter ∅ {[ "42"%string := {[ "B"%string := run.stored_form 5 ]} ]})
             (run.session "42" "A" 1000) (run.at_times [1250; 1250])
             "42"%string "B"%string (or_intror Hact)).
  - exact (proj2 (proj2 merge_touches_one_entry)
             [run.session "7" "A" 900] [] (run.session "42" "A" 1000)
             (run.counter ∅ ∅) (run.at_times [1250; 1250; 1300; 1300])
             Hbefore Hafter).
Defined.

End frame_claims.

(** ** Totals never decrease *)

Section invariant_claims.

Lemma never_less_refl (s : gmap string (gmap string (list byte))) : never_less s s.
Proof. intros i a stored Hentry. exists stored. split; [exact Hentry |]. eauto using Z.le_refl. Qed.

Lemma never_less_trans (s1 s2 s3 : gmap string (gmap string (list byte))) :
  never_less s1 s2 -> never_less s2 s3 -> never_less s1 s3.
Proof.
  intros H12 H23 i a stored Hentry.
  destruct (H12 i a stored Hentry) as (stored2 & Hentry2 & Hv2).
  destruct (H23 i a stored2 Hentry2) as (stored3 & Hentry3 & Hv3).
  exists stored3. split; [exact Hentry3 |]. intros v Hv.
  destruct (Hv2 v Hv) as (v2 & Hwell2 & Hle2).
  destruct (Hv3 v2 Hwell2) as (v3 & Hwell3 & Hle3).
  exists v3. split; [exact Hwell3 | lia].
Qed.

Lemma well_encoded_stored_form (v : Z) : in_int64 v -> well_encoded (stored_form v) v.
Proof.
  intros Hv. split; [exact Hv |]. unfold stored_form.
  destruct (encode_played_some v) as [stored ->]. reflexivity.
Qed.

Lemma with_entry_never_less (t : bolt.Tx) (p : PlayingUser) (now : Z) :
  StartTime p <= now ->
  never_less (bolt.buckets t)
    (bolt.buckets
       (with_entry t (UserID p) (GameID p)
          (stored_form
             (merged_total (entry (bolt.buckets t) (UserID p) (GameID p))
                           now (StartTime p))))).
Proof.
  intros Hnow i a stored Hentry.
  destruct (decide (i = UserID p)) as [-> | Hi].
  - destruct (decide (a = GameID p)) as [-> | Ha].
    + rewrite entry_with_entry, Hentry. eexists. split; [reflexivity |].
      intros v Hv. exists (merged_total (Some stored) now (StartTime p)).
      rewrite merged_total_sum. split.
      * apply well_encoded_stored_form, saturate_range.
      * cbn [played_before]. rewrite (decode_encode v stored Hv).
        apply saturate_grows; [apply Hv | lia].
    + rewrite entry_with_entry_other by (right; exact Ha).
      exists stored. split; [exact Hentry |]. eauto using Z.le_refl.
  - rewrite entry_with_entry_other by (left; exact Hi).
    exists stored. split; [exact Hentry |]. eauto using Z.le_refl.
Qed.

Lemma SaveGametime_never_less (p : PlayingUser) (t : bolt.Tx) (c : time.Clock) :
  StartTime p <= time.next c ->
  never_less (bolt.buckets t) (bolt.buckets (snd (fst (fst (SaveGametime p t c))))).
Proof.
  intros Hnow. rewrite SaveGametime_eq.
  destruct (negb (bolt.writable t)); [apply never_less_refl |].
  destruct (String.length (UserID p) =? 0)%nat; [apply never_less_refl |].
  destruct (valid_keyb (GameID p)); cbn [fst snd].
  - now apply with_entry_never_less.
  - intros i a stored Hentry. rewrite entry_with_bucket.
    exists stored. split; [exact Hentry |]. eauto using Z.le_refl.
Qed.

(** [SaveGametime] reads the clock, it does not set it. *)
Lemma SaveGametime_clock (p : PlayingUser) (t : bolt.Tx) (c : time.Clock) :
  time.reading (snd (fst (SaveGametime p t c))) = time.reading c /\
  (time.reads c <= time.reads (snd (fst (SaveGametime p t c))))%nat.
Proof.
  rewrite SaveGametime_eq.
  destruct (negb (bolt.writable t)); [cbn; split; [reflexivity | lia] |].
  destruct (String.length (UserID p) =? 0)%nat; [cbn; split; [reflexivity | lia] |].
  destruct (valid_keyb (GameID p)); cbn; split; try reflexivity; lia.
Qed.

Lemma started_later (p : PlayingUser) (c c' : time.Clock) :
  time.reading c' = time.reading c -> (time.reads c <= time.reads c')%nat ->
  started p c -> started p c'.
Proof.
  intros Hreading Hreads Hstarted k Hk. rewrite Hreading. apply Hstarted. lia.
Qed.

Lemma EndGametime_never_less (counter : TimeCounter) (pUser : PlayingUser) (env : Env) :
  StartTime pUser <= time.next (clock env) ->
  never_less (bolt.root (GametimeDB counter))
             (bolt.root (GametimeDB (fst (EndGametime counter pUser env)))).
Proof.
  intros Hnow. rewrite EndGametime_root.
  destruct (bolt.opened (GametimeDB counter)); [| apply never_less_refl].
  pose proof (SaveGametime_never_less pUser
                (run.writing (bolt.root (GametimeDB counter))) (clock env) Hnow)
    as Hstep.
  destruct (SaveGametime pUser _ (clock env)) as [[[p' t'] c'] [err |]];
    [apply never_less_refl | exact Hstep].
Qed.

Lemma Snapshot_range_never_less (sessions : list (string * PlayingUser)) :
  forall (t : bolt.Tx) (env : Env),
    Forall (fun kv => started (snd kv) (clock env)) sessions ->
    never_less (bolt.buckets t)
               (bolt.buckets (fst (Snapshot_range sessions t env))).
Proof.
  induction sessions as [| [k p] sessions IH]; intros t env Hall.
  - apply never_less_refl.
  - apply Forall_cons in Hall as [Hp Hall]. cbn [snd] in Hp.
    cbn [Snapshot_range].
    pose proof (SaveGametime_never_less p t (clock env) (Hp _ (Nat.le_refl _)))
      as Hstep.
    pose proof (SaveGametime_clock p t (clock env)) as [Hreading Hreads].
    destruct (SaveGametime p t (clock env)) as [[[p' t'] c'] err].
    cbn [fst snd] in Hstep, Hreading, Hreads.
    eapply never_less_trans; [exact Hstep |]. apply IH.
    assert (Hclock : clock
                       match err with
                       | Some err0 => log_add (LogPrint err0) (with_clock c' env)
                       | None => with_clock c' env
                       end = c') by (destruct err; reflexivity).
    rewrite Hclock.
    eapply Forall_impl; [exact Hall |].
    intros [k0 p0] Hstarted. cbn [snd] in *.
    now apply (started_later p0 (clock env) c').
Qed.

Lemma Snapshot_in_never_less
    (order : gmap string PlayingUser -> list (string * PlayingUser))
    (counter : TimeCounter) (env : Env) :
  Forall (fun kv => started (snd kv) (clock env)) (order (InProgress counter)) ->
  never_less (bolt.root (GametimeDB counter))
             (bolt.root (GametimeDB (fst (fst (Snapshot_in order counter env))))).
Proof.
  intros Hall. unfold Snapshot_in, bolt.Update.
  destruct (bolt.opened (GametimeDB counter)); cbn [negb];
    [| apply never_less_refl].
  pose proof (Snapshot_range_never_less (order (InProgress counter))
                {| bolt.writable := true;
                   bolt.buckets := bolt.root (GametimeDB counter) |} env Hall)
    as Hrange.
  destruct (Snapshot_range (order (InProgress counter)) _ env) as [t' env'].
  exact Hrange.
Qed.

(** C8. While the clock read by a merge is not before the start of the
    session, a merge deletes no entry and lowers no total: every entry of
    the store is still there after [SaveGametime], after [EndGametime] and
    after [Snapshot], and an entry that was the stored form of a 64-bit total
    is the stored form of a total at least as large. *)
Theorem totals_never_decrease :
  (forall (p : PlayingUser) (t : bolt.Tx) (c : time.Clock),
     StartTime p <= time.next c ->
     never_less (bolt.buckets t)
                (bolt.buckets (snd (fst (fst (SaveGametime p t c)))))) /\
  (forall (counter : TimeCounter) (pUser : PlayingUser) (env : Env),
     StartTime pUser <= time.next (clock env) ->
     never_less (bolt.root (GametimeDB counter))
                (bolt.root (GametimeDB (fst (EndGametime counter pUser env))))) /\
  (forall (order : gmap string PlayingUser -> list (string * PlayingUser))
          (counter : TimeCounter) (env : Env),
     Forall (fun kv => started (snd kv) (clock env)) (order (InProgress counter)) ->
     never_less (bolt.root (GametimeDB counter))
                (bolt.root (GametimeDB (fst (fst (Snapshot_in order counter env)))))).
Proof.
  split; [exact SaveGametime_never_less |].
  split; [exact EndGametime_never_less | exact Snapshot_in_never_less].
Qed.

Lemma totals_never_decrease_witness :
  never_less {[ "42"%string := {[ "A"%string := run.stored_form 100 ]} ]}
    (bolt.buckets
       (snd (fst (fst (SaveGametime (run.session "42" "A" 1000)
                         (run.writing
                            {[ "42"%string := {[ "A"%string := run.stored_form 100 ]} ]})
                         (time.ticking [1250; 1250] 0)))))) /\
  never_less {[ "42"%string := {[ "A"%string := run.stored_form 100 ]} ]}
    (bolt.root
       (GametimeDB
          (fst (EndGametime
                  (run.counter ∅ {[ "42"%string := {[ "A"%string := run.stored_form 100 ]} ]})
                  (run.session "42" "A" 1000) (run.at_times [1250; 1250]))))) /\
  never_less {[ "42"%string := {[ "A"%string := run.stored_form 100 ]} ]}
    (bolt.root
       (GametimeDB
          (fst (fst (Snapshot_in (fun _ => [("42"%string, run.session "42" "A" 0)])
                       (run.counter {[ "42"%string := run.session "42" "A" 0 ]}
                          {[ "42"%string := {[ "A"%string := run.stored_form 100 ]} ]})
                       (run.at_times [])))))).
Proof.
  assert (Hnow : 1000 <= 1250) by lia.
  assert (Hall : Forall (fun kv => started (snd kv) (clock (run.at_times [])))
                   [("42"%string, run.session "42" "A" 0)]).
  { apply Forall_cons. split; [| apply Forall_nil; exact I].
    intros k _. cbn. destruct k; cbn; lia. }
  split; [| split].
  - exact (proj1 totals_never_decrease (run.session "42" "A" 1000)
             (run.writing {[ "42"%string := {[ "A"%string := run.stored_form 100 ]} ]})
             (time.ticking [1250; 1250] 0) Hnow).
  - exact (proj1 (proj2 totals_never_decrease)
             (run.counter ∅ {[ "42"%string := {[ "A"%string := run.stored_form 100 ]} ]})
             (run.session "42" "A" 1000) (run.at_times [1250; 1250]) Hnow).
  - exact (proj2 (proj2 totals_never_decrease)
             (fun _ => [("42"%string, run.session "42" "A" 0)])
             (run.counter {[ "42"%string := run.session "42" "A" 0 ]}
                {[ "42"%string := {[ "A"%string := run.stored_form 100 ]} ]})
             (run.at_times []) Hall).
Defined.

End invariant_claims.

(** ** The live sessions *)

Section session_claims.

(** C5. [StartGametime] for an identity that has a live session puts a
    fresh session in its place, started at the reading of the clock: the
    other sessions and the store are untouched, so nothing of the replaced
    session is merged and every query answers as before; the only trace is
    the line of the log, and there is no error to return. *)
Theorem start_replaces_live_session (counter : TimeCounter)
    (user : discord.User.t) (game : discord.Game.t) (env : Env)
    (old : PlayingUser) :
  InProgress counter !! discord.User.ID user = Some old ->
  InProgress (fst (StartGametime counter user game env)) !! discord.User.ID user
  = Some {| UserID := discord.User.ID user;
            StartTime := time.next (clock env);
            GameID := string_of_rune (discord.Game.ID game) |} /\
  (forall other,
     other <> discord.User.ID user ->
     InProgress (fst (StartGametime counter user game env)) !! other
     = InProgress counter !! other) /\
  GametimeDB (fst (StartGametime counter user game env)) = GametimeDB counter /\
  (forall member,
     GetUserGametime (fst (StartGametime counter user game env)) member
     = GetUserGametime counter member) /\
  log (snd (StartGametime counter user game env))
  = log env ++ [LogStarting (discord.User.Name user) (discord.Game.Name game)].
Proof.
  intros _. unfold StartGametime, time.Now, log_add, with_clock, time.next.
  cbn [fst snd InProgress GametimeDB clock log].
  split; [apply lookup_insert_eq |].
  split; [intros other Hne; now apply lookup_insert_ne |].
  split; [reflexivity |]. split; reflexivity.
Qed.

Lemma start_replaces_live_session_witness :
  InProgress (fst (StartGametime
                     (run.counter {[ "42"%string := run.session "42" "B" 1000 ]} ∅)
                     run.alice run.chess (run.at_times [1100])))
    !! "42"%string
  = Some {| UserID := "42"; StartTime := 1100; GameID := "A" |} /\
  (forall other,
     other <> "42"%string ->
     InProgress (fst (StartGametime
                        (run.counter {[ "42"%string := run.session "42" "B" 1000 ]} ∅)
                        run.alice run.chess (run.at_times [1100]))) !! other
     = ({[ "42"%string := run.session "42" "B" 1000 ]} : gmap string PlayingUser)
         !! other) /\
  GametimeDB (fst (StartGametime
                     (run.counter {[ "42"%string := run.session "42" "B" 1000 ]} ∅)
                     run.alice run.chess (run.at_times [1100])))
  = run.store ∅ /\
  (forall member,
     GetUserGametime
       (fst (StartGametime
               (run.counter {[ "42"%string := run.session "42" "B" 1000 ]} ∅)
               run.alice run.chess (run.at_times [1100]))) member
     = GetUserGametime
         (run.counter {[ "42"%string := run.session "42" "B" 1000 ]} ∅) member) /\
  log (snd (StartGametime
              (run.counter {[ "42"%string := run.session "42" "B" 1000 ]} ∅)
              run.alice run.chess (run.at_times [1100])))
  = [] ++ [LogStarting "alice" "chess"].
Proof.
  exact (start_replaces_live_session
           (run.counter {[ "42"%string := run.session "42" "B" 1000 ]} ∅)
           run.alice run.chess (run.at_times [1100])
           (run.session "42" "B" 1000) eq_refl).
Defined.

(** [Snapshot] leaves the map of live sessions as it found it, whatever the
    order of the range. *)
Lemma Snapshot_in_keeps_sessions
    (order : gmap string PlayingUser -> list (string * PlayingUser))
    (counter : TimeCounter) (env : Env) :
  InProgress (fst (fst (Snapshot_in order counter env))) = InProgress counter.
Proof.
  unfold Snapshot_in.
  destruct (bolt.Update (GametimeDB counter) _ env) as [[db env'] err].
  reflexivity.
Qed.

(** C1, the behaviour of the code. [Snapshot] merges the elapsed time of
    every live session and leaves the sessions in the map as they were: the
    reset of [StartTime] is made on the copy the range hands out.  Started
    at 1000, snapshot at 1100 and ended at 1250, a session is stored
    with 100 + 250 nanoseconds, the first stretch counted twice, and not
    with 100 + 150. *)
Theorem snapshot_keeps_the_start_time :
  (forall (order : gmap string PlayingUser -> list (string * PlayingUser))
          (counter : TimeCounter) (env : Env),
     InProgress (fst (fst (Snapshot_in order counter env))) = InProgress counter) /\
  fst (GetUserGametime (fst run.snapshot_then_end) run.alice) !! "A"%string
  = Some (100 + 100 + 150) /\
  snd (GetUserGametime (fst run.snapshot_then_end) run.alice) = None.
Proof.
  split; [exact Snapshot_in_keeps_sessions |].
  split; vm_compute; reflexivity.
Qed.

End session_claims.

(** ** A session from start to end *)

Section accumulation.

Lemma string_of_rune_length (r : Z) :
  (1 <= String.length (string_of_rune r) <= 4)%nat.
Proof.
  unfold string_of_rune.
  destruct ((r <? 0) || (1114111 <? r) || ((55296 <=? r) && (r <=? 57343)));
    [cbn; lia |].
  destruct (r <? 128); [cbn; lia |].
  destruct (r <? 2048); [cbn; lia |].
  destruct (r <? 65536); cbn; lia.
Qed.

Lemma string_of_rune_valid_key (r : Z) : valid_key (string_of_rune r).
Proof.
  pose proof (string_of_rune_length r) as Hlen. unfold valid_key, bolt.MaxKeySize.
  lia.
Qed.

(** A session opened by [StartGametime] for a user with a non-empty ID, and
    ended while the store is open, is always merged: no error is logged, the
    session leaves the live map, and the query reports for the game the total
    held before plus the time between the two readings of the clock,
    saturated to 64 bits. *)
Theorem start_then_end_accumulates (counter : TimeCounter)
    (user : discord.User.t) (game : discord.Game.t) (env : Env) :
  bolt.opened (GametimeDB counter) = true ->
  String.length (discord.User.ID user) <> 0%nat ->
  let activity := string_of_rune (discord.Game.ID game) in
  let v := played_before (entry (bolt.root (GametimeDB counter))
                                (discord.User.ID user) activity) in
  let e := time.reading (clock env) (S (time.reads (clock env)))
           - time.reading (clock env) (time.reads (clock env)) in
  let opened := StartGametime counter user game env in
  exists pUser,
    requestEnd (fst opened) (discord.User.ID user) = Some pUser /\
    InProgress (fst (EndGametime (fst opened) pUser (snd opened)))
      !! discord.User.ID user = None /\
    log (snd (EndGametime (fst opened) pUser (snd opened)))
    = log env ++ [LogStarting (discord.User.Name user) (discord.Game.Name game);
                  LogSaved (discord.User.ID user)] /\
    snd (GetUserGametime (fst (EndGametime (fst opened) pUser (snd opened))) user)
    = None /\
    fst (GetUserGametime (fst (EndGametime (fst opened) pUser (snd opened))) user)
      !! activity = Some (time.saturate (v + e)) /\
    (in_int64 (v + e) ->
     fst (GetUserGametime (fst (EndGametime (fst opened) pUser (snd opened))) user)
       !! activity = Some (v + e)).
Proof.
  intros Hopen Hname activity v e opened.
  set (pUser := {| UserID := discord.User.ID user;
                   StartTime := time.reading (clock env) (time.reads (clock env));
                   GameID := activity |}).
  exists pUser.
  assert (Hlive : requestEnd (fst opened) (discord.User.ID user) = Some pUser).
  { unfold requestEnd, opened, StartGametime, time.Now. cbn [fst InProgress].
    apply lookup_insert_eq. }
  split; [exact Hlive |].
  destruct (EndGametime_commits (fst opened) pUser (snd opened))
    as (newPlayed & Henc & Hend).
  { exact Hopen. }
  { exact Hname. }
  { apply string_of_rune_valid_key. }
  rewrite Hend. cbn [fst snd ended InProgress log].
  split; [apply lookup_delete_eq |].
  split.
  { unfold opened, StartGametime, time.Now, log_add, with_clock.
    cbn [snd log]. rewrite <- app_assoc. reflexivity. }
  rewrite GetUserGametime_cases. cbn [GametimeDB bolt.opened bolt.root].
  unfold with_entry at 1 2 3. cbn [bolt.buckets].
  rewrite lookup_insert_eq. cbn [fst snd]. split; [reflexivity |].
  assert (Hval : decode_played newPlayed = time.saturate (v + e)).
  { rewrite (decode_merged _ _ _ _ Henc). reflexivity. }
  rewrite lookup_fmap, lookup_insert_eq. cbn [fmap option_fmap option_map].
  rewrite Hval. split; [reflexivity |].
  intros Hin. now rewrite saturate_in_range.
Qed.

Lemma start_then_end_accumulates_witness :
  exists pUser,
    requestEnd
      (fst (StartGametime
              (run.counter ∅ {[ "42"%string := {[ "A"%string := run.stored_form 100 ]} ]})
              run.alice run.chess (run.at_times [1000; 1250; 1250])))
      "42" = Some pUser /\
    fst (GetUserGametime
           (fst (EndGametime
                   (fst (StartGametime
                           (run.counter ∅
                              {[ "42"%string := {[ "A"%string := run.stored_form 100 ]} ]})
                           run.alice run.chess (run.at_times [1000; 1250; 1250])))
                   pUser
                   (snd (StartGametime
                           (run.counter ∅
                              {[ "42"%string := {[ "A"%string := run.stored_form 100 ]} ]})
                           run.alice run.chess (run.at_times [1000; 1250; 1250])))))
           run.alice) !! "A"%string = Some (100 + (1250 - 1000)).
Proof.
  assert (Hname : String.length (discord.User.ID run.alice) <> 0%nat)
    by (cbn; discriminate).
  destruct (start_then_end_accumulates
              (run.counter ∅ {[ "42"%string := {[ "A"%string := run.stored_form 100 ]} ]})
              run.alice run.chess (run.at_times [1000; 1250; 1250]) eq_refl Hname)
    as (pUser & Hlive & _ & _ & _ & _ & Hsum).
  exists pUser. split; [exact Hlive |].
  apply Hsum. vm_compute. split; intros Hcmp; discriminate Hcmp.
Defined.

End accumulation.

(** ** Snapshot and Close *)

Section snapshot_facts.

Lemma SaveGametime_writable (p : PlayingUser) (t : bolt.Tx) (c : time.Clock) :
  bolt.writable (snd (fst (fst (SaveGametime p t c)))) = bolt.writable t.
Proof.
  rewrite SaveGametime_eq.
  destruct (negb (bolt.writable t)); [reflexivity |].
  destruct (String.length (UserID p) =? 0)%nat; [reflexivity |].
  destruct (valid_keyb (GameID p)); cbn [fst snd]; [reflexivity |].
  unfold with_bucket. now destruct (bolt.buckets t !! UserID p).
Qed.

Lemma clock_of_logged (err : option error) (c : time.Clock) (env : Env) :
  clock match err with
        | Some err0 => log_add (LogPrint err0) (with_clock c env)
        | None => with_clock c env
        end = c.
Proof. destruct err; reflexivity. Qed.

(** The sessions of other identities leave an entry alone. *)
Lemma Snapshot_range_frame (sessions : list (string * PlayingUser))
    (identity activity : string) :
  forall (t : bolt.Tx) (env : Env),
    identity ∉ (UserID ∘ snd) <$> sessions ->
    entry (bolt.buckets (fst (Snapshot_range sessions t env))) identity activity
    = entry (bolt.buckets t) identity activity.
Proof.
  induction sessions as [| [k p] sessions IH]; intros t env Hnotin.
  - reflexivity.
  - cbn [fmap list_fmap compose snd] in Hnotin.
    apply not_elem_of_cons in Hnotin as [Hne Hnotin]. cbn [Snapshot_range].
    pose proof (SaveGametime_frame p t (clock env) identity activity (or_introl Hne))
      as Hstep.
    destruct (SaveGametime p t (clock env)) as [[[p' t'] c'] err].
    cbn [fst snd] in Hstep. rewrite IH by exact Hnotin. exact Hstep.
Qed.

(** Every session of the range that has a name and a valid key is merged,
    at some reading of the clock, whatever happens to the others. *)
Lemma Snapshot_range_merges (sessions : list (string * PlayingUser)) :
  forall (t : bolt.Tx) (env : Env) key p,
    bolt.writable t = true ->
    NoDup ((UserID ∘ snd) <$> sessions) ->
    (key, p) ∈ sessions ->
    String.length (UserID p) <> 0%nat -> valid_key (GameID p) ->
    exists j,
      (time.reads (clock env) <= j)%nat /\
      entry (bolt.buckets (fst (Snapshot_range sessions t env))) (UserID p) (GameID p)
      = Some (stored_form
                (merged_total (entry (bolt.buckets t) (UserID p) (GameID p))
                              (time.reading (clock env) j) (StartTime p))).
Proof.
  induction sessions as [| [k q] sessions IH];
    intros t env key p Hw Hnd Hin Hname Hkey.
  - apply elem_of_nil in Hin. contradiction.
  - cbn [fmap list_fmap compose snd] in Hnd. apply NoDup_cons in Hnd as [Hq Hnd].
    cbn [Snapshot_range]. apply elem_of_cons in Hin as [Heq | Hin].
    + injection Heq as -> ->.
      pose proof (SaveGametime_eq q t (clock env)) as Hrun.
      rewrite Hw in Hrun. cbn [negb] in Hrun.
      apply Nat.eqb_neq in Hname. rewrite Hname in Hrun.
      apply valid_keyb_spec in Hkey. rewrite Hkey in Hrun.
      rewrite Hrun. exists (time.reads (clock env)). split; [lia |].
      rewrite Snapshot_range_frame by exact Hq.
      apply entry_with_entry.
    + assert (Hne : UserID p <> UserID q).
      { intros Heq. apply Hq. rewrite <- Heq.
        apply (list_elem_of_fmap_2 (UserID ∘ snd) _ (key, p)). exact Hin. }
      pose proof (SaveGametime_frame q t (clock env) (UserID p) (GameID p)
                    (or_introl Hne)) as Hframe.
      pose proof (SaveGametime_writable q t (clock env)) as Hw'.
      pose proof (SaveGametime_clock q t (clock env)) as [Hreading Hreads].
      destruct (SaveGametime q t (clock env)) as [[[q' t'] c'] err].
      cbn [fst snd] in Hframe, Hw', Hreading, Hreads.
      rewrite Hw in Hw'.
      destruct (IH t'
                  match err with
                  | Some err0 => log_add (LogPrint err0) (with_clock c' env)
                  | None => with_clock c' env
                  end key p Hw' Hnd Hin Hname Hkey) as (j & Hj & Hentry).
      rewrite clock_of_logged in Hj, Hentry.
      exists j. split; [lia |].
      rewrite Hentry, Hframe, Hreading. reflexivity.
Qed.

Lemma Snapshot_root (counter : TimeCounter) (env : Env) :
  bolt.opened (GametimeDB counter) = true ->
  snd (Snapshot counter env) = None /\
  bolt.opened (GametimeDB (fst (fst (Snapshot counter env)))) = true /\
  bolt.root (GametimeDB (fst (fst (Snapshot counter env))))
  = bolt.buckets
      (fst (Snapshot_range (map_to_list (InProgress counter))
              (run.writing (bolt.root (GametimeDB counter))) env)) /\
  log (snd (fst (Snapshot counter env)))
  = log (snd (Snapshot_range (map_to_list (InProgress counter))
                (run.writing (bolt.root (GametimeDB counter))) env))
    ++ [LogSnapshotDone].
Proof.
  intros Hopen. unfold Snapshot, Snapshot_in, bolt.Update, run.writing.
  rewrite Hopen. cbn [negb].
  destruct (Snapshot_range (map_to_list (InProgress counter)) _ env) as [t' env'].
  cbn [fst snd GametimeDB bolt.opened bolt.root log_add log].
  repeat split.
Qed.

Lemma keyed_NoDup (counter : TimeCounter) :
  keyed_by_user counter ->
  NoDup ((UserID ∘ snd) <$> map_to_list (InProgress counter)).
Proof.
  intros Hkeyed.
  assert (Hsame : (UserID ∘ snd) <$> map_to_list (InProgress counter)
                  = fst <$> map_to_list (InProgress counter)).
  { apply list_fmap_ext. intros i [k p] Hlook. cbn.
    apply Hkeyed. apply elem_of_map_to_list.
    apply list_elem_of_lookup. eauto. }
  rewrite Hsame. apply NoDup_fst_map_to_list.
Qed.

(** While the store is open [Snapshot] returns no error, leaves the live
    map alone, and merges every live session that has a name and a valid
    key, at some reading of the clock, also when merges of other sessions
    fail. *)
Theorem snapshot_merges_every_live_session (counter : TimeCounter) (env : Env) :
  bolt.opened (GametimeDB counter) = true ->
  keyed_by_user counter ->
  snd (Snapshot counter env) = None /\
  InProgress (fst (fst (Snapshot counter env))) = InProgress counter /\
  forall key p,
    InProgress counter !! key = Some p ->
    String.length (UserID p) <> 0%nat -> valid_key (GameID p) ->
    exists j,
      (time.reads (clock env) <= j)%nat /\
      entry (bolt.root (GametimeDB (fst (fst (Snapshot counter env)))))
            (UserID p) (GameID p)
      = Some (stored_form
                (merged_total
                   (entry (bolt.root (GametimeDB counter)) (UserID p) (GameID p))
                   (time.reading (clock env) j) (StartTime p))).
Proof.
  intros Hopen Hkeyed.
  destruct (Snapshot_root counter env Hopen) as (Herr & _ & Hroot & _).
  split; [exact Herr |]. split; [apply Snapshot_in_keeps_sessions |].
  intros key p Hlive Hname Hkey. rewrite Hroot.
  apply (Snapshot_range_merges (map_to_list (InProgress counter))
           (run.writing (bolt.root (GametimeDB counter))) env key p);
    try assumption.
  - reflexivity.
  - now apply keyed_NoDup.
  - now apply elem_of_map_to_list.
Qed.

Lemma snapshot_merges_every_live_session_witness :
  snd (Snapshot (run.counter {[ "42"%string := run.session "42" "A" 1000;
                                "7"%string := run.session "7" "" 1000 ]} ∅)
         (run.at_times [1100; 1100; 1100])) = None /\
  exists j,
    (0 <= j)%nat /\
    entry (bolt.root
             (GametimeDB
                (fst (fst (Snapshot
                             (run.counter {[ "42"%string := run.session "42" "A" 1000;
                                             "7"%string := run.session "7" "" 1000 ]} ∅)
                             (run.at_times [1100; 1100; 1100]))))))
          "42" "A"
    = Some (stored_form
              (merged_total None
                 (time.reading (clock (run.at_times [1100; 1100; 1100])) j) 1000)).
Proof.
  assert (Hkeyed : keyed_by_user
                     (run.counter {[ "42"%string := run.session "42" "A" 1000;
                                     "7"%string := run.session "7" "" 1000 ]} ∅)).
  { intros key p Hlive. cbn [run.counter InProgress] in Hlive.
    apply lookup_insert_Some in Hlive as [[<- <-] | [_ Hlive]]; [reflexivity |].
    apply lookup_singleton_Some in Hlive as [<- <-]. reflexivity. }
  destruct (snapshot_merges_every_live_session
              (run.counter {[ "42"%string := run.session "42" "A" 1000;
                              "7"%string := run.session "7" "" 1000 ]} ∅)
              (run.at_times [1100; 1100; 1100]) eq_refl Hkeyed)
    as (Herr & _ & Hmerged).
  split; [exact Herr |].
  apply (Hmerged "42"%string (run.session "42" "A" 1000)).
  - reflexivity.
  - cbn. discriminate.
  - split; cbn; [discriminate | unfold bolt.MaxKeySize; lia].
Defined.

Lemma Snapshot_range_namespace (sessions : list (string * PlayingUser))
    (identity : string) :
  forall (t : bolt.Tx) (env : Env),
    identity ∉ (UserID ∘ snd) <$> sessions ->
    bolt.buckets (fst (Snapshot_range sessions t env)) !! identity
    = bolt.buckets t !! identity.
Proof.
  induction sessions as [| [k p] sessions IH]; intros t env Hnotin.
  - reflexivity.
  - cbn [fmap list_fmap compose snd] in Hnotin.
    apply not_elem_of_cons in Hnotin as [Hne Hnotin]. cbn [Snapshot_range].
    pose proof (SaveGametime_namespace p t (clock env) identity Hne) as Hstep.
    destruct (SaveGametime p t (clock env)) as [[[p' t'] c'] err].
    cbn [fst snd] in Hstep. rewrite IH by exact Hnotin. exact Hstep.
Qed.

Lemma Snapshot_range_bad_key (sessions : list (string * PlayingUser)) :
  forall (t : bolt.Tx) (env : Env) key p,
    bolt.writable t = true ->
    NoDup ((UserID ∘ snd) <$> sessions) ->
    (key, p) ∈ sessions ->
    String.length (UserID p) <> 0%nat -> ~ valid_key (GameID p) ->
    bolt.buckets t !! UserID p = None ->
    bolt.buckets (fst (Snapshot_range sessions t env)) !! UserID p = Some ∅.
Proof.
  induction sessions as [| [k q] sessions IH];
    intros t env key p Hw Hnd Hin Hname Hkey Habsent.
  - apply elem_of_nil in Hin. contradiction.
  - cbn [fmap list_fmap compose snd] in Hnd. apply NoDup_cons in Hnd as [Hq Hnd].
    cbn [Snapshot_range]. apply elem_of_cons in Hin as [Heq | Hin].
    + injection Heq as -> ->.
      pose proof (SaveGametime_eq q t (clock env)) as Hrun.
      rewrite Hw in Hrun. cbn [negb] in Hrun.
      apply Nat.eqb_neq in Hname. rewrite Hname in Hrun.
      destruct (valid_keyb (GameID q)) eqn:Hb;
        [apply valid_keyb_spec in Hb; contradiction |].
      rewrite Hrun. rewrite Snapshot_range_namespace by exact Hq.
      unfold with_bucket. rewrite Habsent. cbn [bolt.buckets].
      apply lookup_insert_eq.
    + assert (Hne : UserID p <> UserID q).
      { intros Heq. apply Hq. rewrite <- Heq.
        apply (list_elem_of_fmap_2 (UserID ∘ snd) _ (key, p)). exact Hin. }
      pose proof (SaveGametime_namespace q t (clock env) (UserID p) Hne) as Hframe.
      pose proof (SaveGametime_writable q t (clock env)) as Hw'.
      destruct (SaveGametime q t (clock env)) as [[[q' t'] c'] err].
      cbn [fst snd] in Hframe, Hw'. rewrite Hw in Hw'.
      apply (IH t' _ key p Hw' Hnd Hin Hname Hkey). now rewrite Hframe.
Qed.

(** A live session whose game key [Put] refuses, for a user without a
    namespace: [Snapshot] commits the namespace the failed merge created,
    after which the query answers with an empty map instead of "user never
    played"; [EndGametime] of the same session rolls the namespace back. *)
Theorem snapshot_commits_the_namespace_of_a_failed_merge
    (counter : TimeCounter) (env : Env) (key : string) (p : PlayingUser)
    (name : string) :
  bolt.opened (GametimeDB counter) = true ->
  keyed_by_user counter ->
  InProgress counter !! key = Some p ->
  String.length (UserID p) <> 0%nat -> ~ valid_key (GameID p) ->
  bolt.root (GametimeDB counter) !! UserID p = None ->
  let user := {| discord.User.ID := UserID p; discord.User.Name := name |} in
  GetUserGametime counter user = (∅, Some (errors_New "user never played")) /\
  snd (Snapshot counter env) = None /\
  GetUserGametime (fst (fst (Snapshot counter env))) user = (∅, None) /\
  GetUserGametime (fst (EndGametime counter p env)) user
  = (∅, Some (errors_New "user never played")).
Proof.
  intros Hopen Hkeyed Hlive Hname Hkey Habsent user.
  destruct (Snapshot_root counter env Hopen) as (Herr & Hopen' & Hroot & _).
  split.
  { rewrite GetUserGametime_cases, Hopen. cbn [discord.User.ID user].
    now rewrite Habsent. }
  split; [exact Herr |]. split.
  - rewrite GetUserGametime_cases, Hopen', Hroot. cbn [discord.User.ID user].
    rewrite (Snapshot_range_bad_key (map_to_list (InProgress counter))
               (run.writing (bolt.root (GametimeDB counter))) env key p);
      try assumption.
    + now rewrite fmap_empty.
    + reflexivity.
    + now apply keyed_NoDup.
    + now apply elem_of_map_to_list.
  - destruct (EndGametime_rolls_back counter p env (or_intror (or_intror Hkey)))
      as (err & c & Hend & _).
    rewrite GetUserGametime_cases, Hend. cbn [fst ended GametimeDB].
    rewrite Hopen. cbn [discord.User.ID user]. now rewrite Habsent.
Qed.

Lemma snapshot_commits_the_namespace_of_a_failed_merge_witness :
  GetUserGametime (run.counter {[ "42"%string := run.session "42" "" 1000 ]} ∅)
    run.alice = (∅, Some (errors_New "user never played")) /\
  snd (Snapshot (run.counter {[ "42"%string := run.session "42" "" 1000 ]} ∅)
         (run.at_times [1100])) = None /\
  GetUserGametime
    (fst (fst (Snapshot (run.counter {[ "42"%string := run.session "42" "" 1000 ]} ∅)
                 (run.at_times [1100])))) run.alice = (∅, None) /\
  GetUserGametime
    (fst (EndGametime (run.counter {[ "42"%string := run.session "42" "" 1000 ]} ∅)
            (run.session "42" "" 1000) (run.at_times [1100]))) run.alice
  = (∅, Some (errors_New "user never played")).
Proof.
  assert (Hkeyed : keyed_by_user
                     (run.counter {[ "42"%string := run.session "42" "" 1000 ]} ∅)).
  { intros key p Hlive. cbn [run.counter InProgress] in Hlive.
    apply lookup_singleton_Some in Hlive as [<- <-]. reflexivity. }
  assert (Hname : String.length "42" <> 0%nat) by (cbn; discriminate).
  assert (Hbad : ~ valid_key "").
  { intros [Hlen _]. apply Hlen. reflexivity. }
  exact (snapshot_commits_the_namespace_of_a_failed_merge
           (run.counter {[ "42"%string := run.session "42" "" 1000 ]} ∅)
           (run.at_times [1100]) "42"%string (run.session "42" "" 1000) "alice"%string
           eq_refl Hkeyed eq_refl Hname Hbad eq_refl).
Defined.

(** [Close] takes the snapshot and closes the store; from then on the
    query, [EndGametime] and [Snapshot] fail with "database not open" and
    leave the store as [Close] left it. *)
Theorem close_snapshots_then_shuts (counter : TimeCounter) (env : Env) :
  bolt.opened (GametimeDB (fst (Close counter env))) = false /\
  bolt.root (GametimeDB (fst (Close counter env)))
  = bolt.root (GametimeDB (fst (fst (Snapshot counter env)))) /\
  InProgress (fst (Close counter env)) = InProgress counter /\
  (forall user,
     GetUserGametime (fst (Close counter env)) user = (∅, Some ErrDatabaseNotOpen)) /\
  (forall pUser env',
     GametimeDB (fst (EndGametime (fst (Close counter env)) pUser env'))
     = GametimeDB (fst (Close counter env)) /\
     log (snd (EndGametime (fst (Close counter env)) pUser env'))
     = log env' ++ [LogUpdateError ErrDatabaseNotOpen; LogSaved (UserID pUser)]) /\
  (forall env',
     snd (Snapshot (fst (Close counter env)) env') = Some ErrDatabaseNotOpen /\
     GametimeDB (fst (fst (Snapshot (fst (Close counter env)) env')))
     = GametimeDB (fst (Close counter env))).
Proof.
  assert (Hshut : bolt.opened (GametimeDB (fst (Close counter env))) = false).
  { unfold Close. destruct (Snapshot counter env) as [[counter' env'] err].
    reflexivity. }
  split; [exact Hshut |]. split.
  { unfold Close. destruct (Snapshot counter env) as [[counter' env'] err].
    reflexivity. }
  split.
  { unfold Close. pose proof (Snapshot_in_keeps_sessions map_to_list counter env) as Hkeep.
    fold Snapshot in Hkeep.
    destruct (Snapshot counter env) as [[counter' env'] err]. exact Hkeep. }
  split.
  { intros user. rewrite GetUserGametime_cases, Hshut. reflexivity. }
  split.
  - intros pUser env'. rewrite EndGametime_cases, Hshut. split; reflexivity.
  - intros env'. unfold Snapshot, Snapshot_in, bolt.Update. rewrite Hshut.
    cbn [negb fst snd GametimeDB].
    split; [reflexivity |].
    destruct (GametimeDB (fst (Close counter env))); reflexivity.
Qed.

(** A session opened by [StartGametime] for a user with a non-empty ID when
    no other session is live, then [Close]: the store is closed and holds,
    for the game, the total held before plus the time between the two
    readings of the clock, saturated to 64 bits. *)
Theorem start_then_close_persists (counter : TimeCounter)
    (user : discord.User.t) (game : discord.Game.t) (env : Env) :
  bolt.opened (GametimeDB counter) = true ->
  InProgress counter = ∅ ->
  String.length (discord.User.ID user) <> 0%nat ->
  let activity := string_of_rune (discord.Game.ID game) in
  let v := played_before (entry (bolt.root (GametimeDB counter))
                                (discord.User.ID user) activity) in
  let e := time.reading (clock env) (S (time.reads (clock env)))
           - time.reading (clock env) (time.reads (clock env)) in
  let opened := StartGametime counter user game env in
  bolt.opened (GametimeDB (fst (Close (fst opened) (snd opened)))) = false /\
  log (snd (Close (fst opened) (snd opened)))
  = log env ++ [LogStarting (discord.User.Name user) (discord.Game.Name game);
                LogSnapshotDone] /\
  exists stored,
    entry (bolt.root (GametimeDB (fst (Close (fst opened) (snd opened)))))
          (discord.User.ID user) activity = Some stored /\
    decode_played stored = time.saturate (v + e).
Proof.
  intros Hopen Hnone Hname activity v e opened.
  destruct (close_snapshots_then_shuts (fst opened) (snd opened))
    as (Hshut & Hroot & _).
  split; [exact Hshut |].
  set (pUser := {| UserID := discord.User.ID user;
                   StartTime := time.reading (clock env) (time.reads (clock env));
                   GameID := activity |}).
  assert (Hlive : map_to_list (InProgress (fst opened))
                  = [(discord.User.ID user, pUser)]).
  { unfold opened, StartGametime, time.Now. cbn [fst InProgress].
    rewrite Hnone, insert_empty. apply map_to_list_singleton. }
  assert (Hopen' : bolt.opened (GametimeDB (fst opened)) = true) by exact Hopen.
  destruct (Snapshot_root (fst opened) (snd opened) Hopen')
    as (Herr & _ & Hsnap & Hlog).
  rewrite Hlive in Hsnap, Hlog. cbn [Snapshot_range] in Hsnap, Hlog.
  destruct (SaveGametime_succeeds pUser
              (run.writing (bolt.root (GametimeDB (fst opened))))
              (clock (snd opened)) eq_refl Hname
              (string_of_rune_valid_key (discord.Game.ID game)))
    as (newPlayed & Henc & Hrun).
  rewrite Hrun in Hsnap, Hlog. cbn [fst snd] in Hsnap, Hlog.
  split.
  - unfold Close. destruct (Snapshot (fst opened) (snd opened)) as [[c1 e1] err].
    cbn [fst snd] in Herr, Hlog |- *. rewrite Herr, Hlog.
    unfold opened, StartGametime, time.Now, log_add, with_clock.
    cbn [snd log]. rewrite <- app_assoc. reflexivity.
  - exists newPlayed. rewrite Hroot, Hsnap. split; [apply entry_with_entry |].
    rewrite (decode_merged _ _ _ _ Henc). reflexivity.
Qed.

Lemma start_then_close_persists_witness :
  exists stored,
    entry (bolt.root
             (GametimeDB
                (fst (Close
                        (fst (StartGametime (run.counter ∅ ∅) run.alice run.chess
                                (run.at_times [1000; 1250; 1250])))
                        (snd (StartGametime (run.counter ∅ ∅) run.alice run.chess
                                (run.at_times [1000; 1250; 1250])))))))
          "42" "A" = Some stored /\
    decode_played stored = time.saturate (0 + (1250 - 1000)).
Proof.
  assert (Hname : String.length (discord.User.ID run.alice) <> 0%nat)
    by (cbn; discriminate).
  exact (proj2 (proj2 (start_then_close_persists (run.counter ∅ ∅) run.alice run.chess
                         (run.at_times [1000; 1250; 1250]) eq_refl eq_refl Hname))).
Defined.

End snapshot_facts.

(** ** Runs of calls *)

Section run_facts.

Lemma with_entry_sound (t : bolt.Tx) (p : PlayingUser) (now : Z) :
  StartTime p <= now -> sound (bolt.buckets t) ->
  sound (bolt.buckets
           (with_entry t (UserID p) (GameID p)
              (stored_form
                 (merged_total (entry (bolt.buckets t) (UserID p) (GameID p))
                               now (StartTime p))))).
Proof.
  intros Hnow Hsound i a stored Hentry.
  destruct (decide (i = UserID p /\ a = GameID p)) as [[-> ->] | Hother].
  - rewrite entry_with_entry in Hentry. injection Hentry as <-.
    set (found := entry (bolt.buckets t) (UserID p) (GameID p)).
    assert (Hbefore : in_int64 (played_before found) /\ 0 <= played_before found).
    { destruct found as [old |] eqn:Hfound; cbn [played_before].
      - destruct (Hsound _ _ _ Hfound) as (v & Hv & Hpos).
        rewrite (decode_encode v old Hv). split; [apply Hv | exact Hpos].
      - split; [unfold in_int64, minInt64, maxInt64 |]; lia. }
    destruct Hbefore as [Hin Hpos].
    exists (merged_total found now (StartTime p)). split.
    + apply well_encoded_stored_form. rewrite merged_total_sum. apply saturate_range.
    + rewrite merged_total_sum.
      pose proof (saturate_grows (played_before found) (now - StartTime p) Hin) as Hg.
      lia.
  - rewrite entry_with_entry_other in Hentry.
    + exact (Hsound _ _ _ Hentry).
    + destruct (decide (i = UserID p)) as [-> | Hi]; [| now left].
      right. intros ->. apply Hother. split; reflexivity.
Qed.

Lemma SaveGametime_sound (p : PlayingUser) (t : bolt.Tx) (c : time.Clock) :
  StartTime p <= time.next c -> sound (bolt.buckets t) ->
  sound (bolt.buckets (snd (fst (fst (SaveGametime p t c))))).
Proof.
  intros Hnow Hsound. rewrite SaveGametime_eq.
  destruct (negb (bolt.writable t)); [exact Hsound |].
  destruct (String.length (UserID p) =? 0)%nat; [exact Hsound |].
  destruct (valid_keyb (GameID p)); cbn [fst snd].
  - now apply with_entry_sound.
  - intros i a stored Hentry. rewrite entry_with_bucket in Hentry.
    exact (Hsound _ _ _ Hentry).
Qed.

Lemma EndGametime_sound (counter : TimeCounter) (pUser : PlayingUser) (env : Env) :
  StartTime pUser <= time.next (clock env) ->
  sound (bolt.root (GametimeDB counter)) ->
  sound (bolt.root (GametimeDB (fst (EndGametime counter pUser env)))).
Proof.
  intros Hnow Hsound. rewrite EndGametime_root.
  destruct (bolt.opened (GametimeDB counter)); [| exact Hsound].
  pose proof (SaveGametime_sound pUser (run.writing (bolt.root (GametimeDB counter)))
                (clock env) Hnow Hsound) as Hstep.
  destruct (SaveGametime pUser _ (clock env)) as [[[p' t'] c'] [err |]];
    [exact Hsound | exact Hstep].
Qed.

Lemma EndGametime_clock (counter : TimeCounter) (pUser : PlayingUser) (env : Env) :
  time.reading (clock (snd (EndGametime counter pUser env))) = time.reading (clock env)
  /\ (time.reads (clock env)
      <= time.reads (clock (snd (EndGametime counter pUser env))))%nat.
Proof.
  rewrite EndGametime_cases.
  destruct (bolt.opened (GametimeDB counter)); [| cbn; split; [reflexivity | lia]].
  pose proof (SaveGametime_clock pUser (run.writing (bolt.root (GametimeDB counter)))
                (clock env)) as Hclock.
  destruct (SaveGametime pUser _ (clock env)) as [[[p' t'] c'] [err |]];
    exact Hclock.
Qed.

Lemma Snapshot_range_sound (sessions : list (string * PlayingUser)) :
  forall (t : bolt.Tx) (env : Env),
    Forall (fun kv => started (snd kv) (clock env)) sessions ->
    sound (bolt.buckets t) ->
    sound (bolt.buckets (fst (Snapshot_range sessions t env))).
Proof.
  induction sessions as [| [k p] sessions IH]; intros t env Hall Hsound.
  - exact Hsound.
  - apply Forall_cons in Hall as [Hp Hall]. cbn [snd] in Hp. cbn [Snapshot_range].
    pose proof (SaveGametime_sound p t (clock env) (Hp _ (Nat.le_refl _)) Hsound)
      as Hstep.
    pose proof (SaveGametime_clock p t (clock env)) as [Hreading Hreads].
    destruct (SaveGametime p t (clock env)) as [[[p' t'] c'] err].
    cbn [fst snd] in Hstep, Hreading, Hreads.
    apply IH; [| exact Hstep]. rewrite clock_of_logged.
    eapply Forall_impl; [exact Hall |].
    intros [k0 p0] Hstarted. cbn [snd] in *.
    now apply (started_later p0 (clock env) c').
Qed.

Lemma Snapshot_range_clock (sessions : list (string * PlayingUser)) :
  forall (t : bolt.Tx) (env : Env),
    time.reading (clock (snd (Snapshot_range sessions t env)))
    = time.reading (clock env) /\
    (time.reads (clock env)
     <= time.reads (clock (snd (Snapshot_range sessions t env))))%nat.
Proof.
  induction sessions as [| [k p] sessions IH]; intros t env.
  - split; [reflexivity | cbn; lia].
  - cbn [Snapshot_range].
    pose proof (SaveGametime_clock p t (clock env)) as [Hreading Hreads].
    destruct (SaveGametime p t (clock env)) as [[[p' t'] c'] err].
    cbn [fst snd] in Hreading, Hreads.
    match goal with
    | |- context [Snapshot_range sessions t' ?e] =>
        destruct (IH t' e) as [Hr Hn]; rewrite clock_of_logged in Hr, Hn
    end.
    rewrite Hr, Hreading. split; [reflexivity | lia].
Qed.

Lemma Snapshot_state (counter : TimeCounter) (env : Env) :
  Forall (fun kv => started (snd kv) (clock env)) (map_to_list (InProgress counter)) ->
  sound (bolt.root (GametimeDB counter)) ->
  sound (bolt.root (GametimeDB (fst (fst (Snapshot counter env))))) /\
  time.reading (clock (snd (fst (Snapshot counter env)))) = time.reading (clock env) /\
  (time.reads (clock env)
   <= time.reads (clock (snd (fst (Snapshot counter env)))))%nat.
Proof.
  intros Hall Hsound. unfold Snapshot, Snapshot_in, bolt.Update.
  destruct (bolt.opened (GametimeDB counter)); cbn [negb].
  - pose proof (Snapshot_range_sound (map_to_list (InProgress counter))
                  {| bolt.writable := true;
                     bolt.buckets := bolt.root (GametimeDB counter) |} env Hall Hsound)
      as Hs.
    pose proof (Snapshot_range_clock (map_to_list (InProgress counter))
                  {| bolt.writable := true;
                     bolt.buckets := bolt.root (GametimeDB counter) |} env)
      as Hc.
    destruct (Snapshot_range (map_to_list (InProgress counter)) _ env) as [t' env'].
    cbn [fst snd GametimeDB bolt.root log_add clock] in *. split; [exact Hs | exact Hc].
  - cbn [fst snd GametimeDB]. split; [exact Hsound |]. split; [reflexivity | lia].
Qed.

Lemma sessions_started_list (counter : TimeCounter) (env : Env) :
  sessions_started counter env ->
  Forall (fun kv => started (snd kv) (clock env)) (map_to_list (InProgress counter)).
Proof.
  intros Hstarted. apply Forall_forall. intros [k p] Hin.
  apply elem_of_map_to_list in Hin. exact (Hstarted k p Hin).
Qed.

(** One call keeps what a run relies on. *)
Lemma do_call_keeps (c : call) (counter : TimeCounter) (env : Env) :
  time.monotonic (clock env) -> sessions_started counter env ->
  sound (bolt.root (GametimeDB counter)) ->
  time.monotonic (clock (snd (do_call c (counter, env)))) /\
  sessions_started (fst (do_call c (counter, env))) (snd (do_call c (counter, env))) /\
  sound (bolt.root (GametimeDB (fst (do_call c (counter, env))))) /\
  never_less (bolt.root (GametimeDB counter))
             (bolt.root (GametimeDB (fst (do_call c (counter, env))))).
Proof.
  intros Hmono Hstarted Hsound. destruct c as [user game | who |]; cbn [do_call].
  - unfold StartGametime, time.Now, log_add, with_clock.
    cbn [fst snd clock log InProgress GametimeDB].
    split; [exact Hmono |]. split; [| split; [exact Hsound | apply never_less_refl]].
    intros key p Hlive k Hk.
    cbn [fst snd clock InProgress time.reads time.reading] in Hlive, Hk |- *.
    destruct (decide (discord.User.ID user = key)) as [<- | Hne].
    + rewrite lookup_insert_eq in Hlive. injection Hlive as <-. cbn [StartTime].
      apply Hmono. lia.
    + rewrite lookup_insert_ne in Hlive by exact Hne.
      apply (Hstarted key p Hlive). lia.
  - unfold requestEnd. destruct (InProgress counter !! who) as [pUser |] eqn:Hlive.
    + cbn [Listen].
      assert (Hnow : StartTime pUser <= time.next (clock env))
        by (apply (Hstarted who pUser Hlive); lia).
      pose proof (EndGametime_clock counter pUser env) as [Hreading Hreads].
      pose proof (EndGametime_sound counter pUser env Hnow Hsound) as Hs.
      pose proof (EndGametime_never_less counter pUser env Hnow) as Hn.
      assert (Hlive' : InProgress (fst (EndGametime counter pUser env))
                       = delete (UserID pUser) (InProgress counter)).
      { rewrite EndGametime_cases.
        destruct (bolt.opened (GametimeDB counter)); [| reflexivity].
        destruct (SaveGametime pUser _ (clock env)) as [[[p' t'] c'] [err |]];
          reflexivity. }
      destruct (EndGametime counter pUser env) as [counter' env'].
      cbn [fst snd] in *.
      split; [intros j k Hjk; rewrite Hreading; now apply Hmono |].
      split; [| split; assumption].
      intros key p Hp. rewrite Hlive' in Hp.
      apply lookup_delete_Some in Hp as [_ Hp].
      apply (started_later p (clock env)); [exact Hreading | exact Hreads |].
      exact (Hstarted key p Hp).
    + cbn [fst snd]. split; [exact Hmono |]. split; [exact Hstarted |].
      split; [exact Hsound | apply never_less_refl].
  - pose proof (sessions_started_list counter env Hstarted) as Hall.
    destruct (Snapshot_state counter env Hall Hsound) as (Hs & Hreading & Hreads).
    pose proof (Snapshot_in_never_less map_to_list counter env Hall) as Hn.
    pose proof (Snapshot_in_keeps_sessions map_to_list counter env) as Hkeep.
    fold Snapshot in Hn, Hkeep.
    split; [intros j k Hjk; rewrite Hreading; now apply Hmono |].
    split; [| split; assumption].
    intros key p Hp. rewrite Hkeep in Hp.
    apply (started_later p (clock env)); [exact Hreading | exact Hreads |].
    exact (Hstarted key p Hp).
Qed.

(** Under a clock that never runs backwards, any sequence of
    [StartGametime], ends of live sessions and [Snapshot] keeps the ledger
    sound: every entry stays the stored form of a 64-bit total that is not
    negative, no entry is lost and no total decreases, every live session
    has started in the past, and the query reports no negative total. *)
Theorem calls_keep_the_ledger_sound (calls : list call)
    (counter : TimeCounter) (env : Env) :
  time.monotonic (clock env) -> sessions_started counter env ->
  sound (bolt.root (GametimeDB counter)) ->
  sound (bolt.root (GametimeDB (fst (do_calls calls (counter, env))))) /\
  never_less (bolt.root (GametimeDB counter))
             (bolt.root (GametimeDB (fst (do_calls calls (counter, env))))) /\
  sessions_started (fst (do_calls calls (counter, env)))
                   (snd (do_calls calls (counter, env))) /\
  forall user activity total,
    fst (GetUserGametime (fst (do_calls calls (counter, env))) user) !! activity
    = Some total ->
    0 <= total.
Proof.
  revert counter env. unfold do_calls.
  assert (Hrun : forall calls counter env,
    time.monotonic (clock env) -> sessions_started counter env ->
    sound (bolt.root (GametimeDB counter)) ->
    time.monotonic
      (clock (snd (foldl (fun state call => do_call call state) (counter, env) calls)))
    /\ sessions_started
         (fst (foldl (fun state call => do_call call state) (counter, env) calls))
         (snd (foldl (fun state call => do_call call state) (counter, env) calls))
    /\ sound (bolt.root (GametimeDB
         (fst (foldl (fun state call => do_call call state) (counter, env) calls))))
    /\ never_less (bolt.root (GametimeDB counter))
         (bolt.root (GametimeDB
            (fst (foldl (fun state call => do_call call state) (counter, env) calls))))).
  { clear. induction calls as [| c calls IH]; intros counter env Hmono Hstarted Hsound.
    - cbn [foldl fst snd]. repeat split; try assumption. apply never_less_refl.
    - cbn [foldl].
      destruct (do_call_keeps c counter env Hmono Hstarted Hsound)
        as (Hmono1 & Hstarted1 & Hsound1 & Hless1).
      destruct (do_call c (counter, env)) as [counter1 env1]. cbn [fst snd] in *.
      destruct (IH counter1 env1 Hmono1 Hstarted1 Hsound1)
        as (Hmono2 & Hstarted2 & Hsound2 & Hless2).
      repeat split; try assumption.
      eapply never_less_trans; eassumption. }
  intros counter env Hmono Hstarted Hsound.
  destruct (Hrun calls counter env Hmono Hstarted Hsound)
    as (_ & Hstarted' & Hsound' & Hless).
  split; [exact Hsound' |]. split; [exact Hless |]. split; [exact Hstarted' |].
  intros user activity total Hquery.
  rewrite GetUserGametime_cases in Hquery.
  destruct (bolt.opened _); [| cbn in Hquery; rewrite lookup_empty in Hquery;
                               discriminate Hquery].
  destruct (bolt.root _ !! discord.User.ID user) as [kv |] eqn:Hkv;
    [| cbn in Hquery; rewrite lookup_empty in Hquery; discriminate Hquery].
  cbn [fst] in Hquery. rewrite lookup_fmap in Hquery.
  destruct (kv !! activity) as [stored |] eqn:Hact; [| discriminate Hquery].
  cbn in Hquery. injection Hquery as <-.
  destruct (Hsound' (discord.User.ID user) activity stored) as (v & Hv & Hpos).
  { unfold entry. now rewrite Hkv. }
  now rewrite (decode_encode v stored Hv).
Qed.

Lemma calls_keep_the_ledger_sound_witness :
  fst (GetUserGametime
         (fst (do_calls [CallStart run.alice run.chess; CallSnapshot;
                         CallEnd "42"; CallStart run.bob run.chess]
                 (run.counter ∅ ∅, readings [1000; 1100; 1100; 1250; 1250] 1300)))
         run.alice) !! "A"%string = Some 350 /\
  0 <= 350.
Proof.
  assert (Hmono : time.monotonic
                    (clock (readings [1000; 1100; 1100; 1250; 1250] 1300))).
  { assert (Hstep : forall k,
              time.reading (clock (readings [1000; 1100; 1100; 1250; 1250] 1300)) k
              <= time.reading (clock (readings [1000; 1100; 1100; 1250; 1250] 1300))
                   (S k)).
    { intros k. do 6 (destruct k as [| k]; [cbn; lia |]). cbn. lia. }
    intros j k Hjk. induction Hjk as [| k Hjk IH]; [lia |].
    specialize (Hstep k). lia. }
  assert (Hstarted : sessions_started (run.counter ∅ ∅)
                       (readings [1000; 1100; 1100; 1250; 1250] 1300)).
  { intros key p Hlive. cbn [run.counter InProgress] in Hlive.
    rewrite lookup_empty in Hlive. discriminate Hlive. }
  assert (Hsound : sound (bolt.root (GametimeDB (run.counter ∅ ∅)))).
  { intros i a stored Hentry. unfold entry in Hentry. cbn in Hentry.
    rewrite lookup_empty in Hentry. discriminate Hentry. }
  assert (Htotal :
    fst (GetUserGametime
           (fst (do_calls [CallStart run.alice run.chess; CallSnapshot;
                           CallEnd "42"; CallStart run.bob run.chess]
                   (run.counter ∅ ∅, readings [1000; 1100; 1100; 1250; 1250] 1300)))
           run.alice) !! "A"%string = Some 350) by (vm_compute; reflexivity).
  split; [exact Htotal |].
  exact (proj2 (proj2 (proj2
           (calls_keep_the_ledger_sound
              [CallStart run.alice run.chess; CallSnapshot;
               CallEnd "42"; CallStart run.bob run.chess]
              (run.counter ∅ ∅) (readings [1000; 1100; 1100; 1250; 1250] 1300)
              Hmono Hstarted Hsound))) run.alice "A"%string 350 Htotal).
Defined.

End run_facts.

(** ** The keys of the games *)

Section key_facts.

Lemma code_of_chr (z : Z) :
  0 <= z < 256 -> Z.of_N (Ascii.N_of_ascii (chr z)) = z.
Proof.
  intros Hz. unfold chr. rewrite Ascii.N_ascii_embedding by lia. lia.
Qed.

Lemma lor_tag (tag s x : Z) :
  0 <= s -> 0 <= tag -> 0 <= x < 2 ^ s -> Z.lor (tag * 2 ^ s) x = tag * 2 ^ s + x.
Proof.
  intros Hs Htag Hx. rewrite Z.lor_comm, lor_disjoint_add by lia. lia.
Qed.

Lemma land_63 (y : Z) : Z.land y 0x3F = y mod 64.
Proof. change 0x3F with (Z.ones 6). now rewrite Z.land_ones by lia. Qed.

Lemma continuation_code (y : Z) :
  Z.of_N (Ascii.N_of_ascii (chr (Z.lor 0x80 (Z.land y 0x3F)))) = 128 + y mod 64.
Proof.
  assert (Hm : 0 <= y mod 64 < 64) by (apply Z.mod_pos_bound; lia).
  rewrite land_63. change 0x80 with (1 * 2 ^ 7).
  rewrite lor_tag by (change (2 ^ 7) with 128; lia).
  change (1 * 2 ^ 7) with 128. apply code_of_chr. lia.
Qed.

Lemma lead_code (tag s x : Z) :
  0 <= s -> 0 <= tag -> 0 <= x < 2 ^ s -> tag * 2 ^ s + x < 256 ->
  Z.of_N (Ascii.N_of_ascii (chr (Z.lor (tag * 2 ^ s) x))) = tag * 2 ^ s + x.
Proof.
  intros Hs Htag Hx Hsmall. rewrite lor_tag by assumption.
  apply code_of_chr. split; [| exact Hsmall].
  assert (0 <= tag * 2 ^ s) by (apply Z.mul_nonneg_nonneg; lia). lia.
Qed.

(** The bytes of [string(r)] for a valid code point. *)
Lemma codes_string_of_rune (r : Z) :
  valid_runeb r = true ->
  codes (string_of_rune r)
  = if r <? 0x80 then [r]
    else if r <? 0x800 then [192 + r / 64; 128 + r mod 64]
    else if r <? 0x10000 then
      [224 + r / 4096; 128 + (r / 64) mod 64; 128 + r mod 64]
    else [240 + r / 262144; 128 + (r / 4096) mod 64; 128 + (r / 64) mod 64;
          128 + r mod 64].
Proof.
  intros Hvalid. unfold string_of_rune. unfold valid_runeb in Hvalid.
  apply negb_true_iff in Hvalid. rewrite Hvalid.
  apply orb_false_iff in Hvalid as [Hrange _].
  apply orb_false_iff in Hrange as [Hlow Hhigh].
  apply Z.ltb_ge in Hlow, Hhigh.
  destruct (r <? 128) eqn:H1.
  { apply Z.ltb_lt in H1. cbn [codes]. rewrite code_of_chr by lia. reflexivity. }
  apply Z.ltb_ge in H1.
  destruct (r <? 2048) eqn:H2.
  { apply Z.ltb_lt in H2. cbn [codes]. rewrite continuation_code.
    rewrite Z.shiftr_div_pow2 by lia. change (2 ^ 6) with 64.
    assert (Hq : 0 <= r / 64 < 32)
      by (split; [apply Z.div_pos; lia | apply Z.div_lt_upper_bound; lia]).
    change 192 with (3 * 2 ^ 6) at 1.
    rewrite lead_code by (change (2 ^ 6) with 64; lia). reflexivity. }
  apply Z.ltb_ge in H2.
  destruct (r <? 65536) eqn:H3.
  { apply Z.ltb_lt in H3. cbn [codes]. rewrite !continuation_code.
    rewrite !Z.shiftr_div_pow2 by lia. change (2 ^ 6) with 64.
    change (2 ^ 12) with 4096.
    assert (Hq : 0 <= r / 4096 < 16)
      by (split; [apply Z.div_pos; lia | apply Z.div_lt_upper_bound; lia]).
    change 224 with (7 * 2 ^ 5) at 1.
    rewrite lead_code by (change (2 ^ 5) with 32; lia). reflexivity. }
  apply Z.ltb_ge in H3. cbn [codes]. rewrite !continuation_code.
  rewrite !Z.shiftr_div_pow2 by lia. change (2 ^ 6) with 64.
  change (2 ^ 12) with 4096. change (2 ^ 18) with 262144.
  assert (Hq : 0 <= r / 262144 < 5)
    by (split; [apply Z.div_pos; lia | apply Z.div_lt_upper_bound; lia]).
  change 240 with (15 * 2 ^ 4) at 1.
  rewrite lead_code by (change (2 ^ 4) with 16; lia). reflexivity.
Qed.

Lemma string_of_rune_inj (r r' : Z) :
  valid_runeb r = true -> valid_runeb r' = true ->
  string_of_rune r = string_of_rune r' -> r = r'.
Proof.
  intros Hr Hr' Heq. apply (f_equal codes) in Heq.
  rewrite !codes_string_of_rune in Heq by assumption.
  destruct (r <? 128); destruct (r <? 2048); destruct (r <? 65536);
    destruct (r' <? 128); destruct (r' <? 2048); destruct (r' <? 65536);
    try discriminate Heq; injection Heq; intros;
    Z.div_mod_to_equations; lia.
Qed.

Lemma string_of_rune_invalid (r : Z) :
  valid_runeb r = false -> string_of_rune r = string_of_rune 0xFFFD.
Proof.
  intros Hr. unfold string_of_rune at 1. unfold valid_runeb in Hr.
  apply negb_false_iff in Hr. rewrite Hr. reflexivity.
Qed.

(** Two games get the same key in the store exactly when [string(game.ID)]
    encodes the same code point for both: distinct valid code points never
    share a key, and every ID that is no valid code point shares the key of
    U+FFFD.  So the sessions [StartGametime] opens for two games are counted
    under one entry exactly in that case. *)
Theorem games_share_a_key_iff (counter : TimeCounter) (user : discord.User.t)
    (game game' : discord.Game.t) (env : Env) :
  (GameID <$> InProgress (fst (StartGametime counter user game env))
                !! discord.User.ID user)
  = (GameID <$> InProgress (fst (StartGametime counter user game' env))
                  !! discord.User.ID user)
  <-> encoded_rune (discord.Game.ID game) = encoded_rune (discord.Game.ID game').
Proof.
  unfold StartGametime, time.Now. cbn [fst InProgress].
  rewrite !lookup_insert_eq. cbn [fmap option_fmap option_map GameID].
  assert (Hcanon : forall r, string_of_rune r = string_of_rune (encoded_rune r)).
  { intros r. unfold encoded_rune. destruct (valid_runeb r) eqn:Hr; [reflexivity |].
    now apply string_of_rune_invalid. }
  assert (Hvalid : forall r, valid_runeb (encoded_rune r) = true).
  { intros r. unfold encoded_rune. destruct (valid_runeb r) eqn:Hr;
      [exact Hr | reflexivity]. }
  split.
  - intros Heq. injection Heq as Heq.
    rewrite (Hcanon (discord.Game.ID game)), (Hcanon (discord.Game.ID game')) in Heq.
    now apply string_of_rune_inj.
  - intros Heq.
    rewrite (Hcanon (discord.Game.ID game)), (Hcanon (discord.Game.ID game')), Heq.
    reflexivity.
Qed.

Lemma games_share_a_key_iff_witness :
  (GameID <$> InProgress (fst (StartGametime (run.counter ∅ ∅) run.alice
                                 {| discord.Game.ID := -1; discord.Game.Name := "a" |}
                                 (run.at_times [1000]))) !! "42"%string)
  = (GameID <$> InProgress (fst (StartGametime (run.counter ∅ ∅) run.alice
                                   {| discord.Game.ID := 0x110000;
                                      discord.Game.Name := "b" |}
                                   (run.at_times [1000]))) !! "42"%string).
Proof.
  exact (proj2 (games_share_a_key_iff (run.counter ∅ ∅) run.alice
                  {| discord.Game.ID := -1; discord.Game.Name := "a" |}
                  {| discord.Game.ID := 0x110000; discord.Game.Name := "b" |}
                  (run.at_times [1000])) eq_refl).
Defined.



End key_facts.

(** ** Messages *)

Section message_facts.

Lemma Split_space_nonempty (s : string) : strings_Split_space s <> [].
Proof.
  destruct s as [| a s]; cbn [strings_Split_space]; [discriminate |].
  destruct (Ascii.eqb a space); [discriminate |].
  destruct (strings_Split_space s); discriminate.
Qed.

Lemma Split_space_no_space (s : string) :
  has_space s = false -> strings_Split_space s = [s].
Proof.
  induction s as [| a s IH]; cbn [strings_Split_space has_space]; [reflexivity |].
  destruct (Ascii.eqb a space); cbn [orb]; [discriminate |].
  intros Hs. now rewrite IH.
Qed.

Lemma Split_space_word (word rest : string) :
  has_space word = false ->
  strings_Split_space (word ++ String space rest) = word :: strings_Split_space rest.
Proof.
  induction word as [| a word IH].
  - intros _. change ("" +:+ String space rest) with (String space rest).
    cbn [strings_Split_space]. now rewrite Ascii.eqb_refl.
  - change (String a word +:+ String space rest)
      with (String a (word +:+ String space rest)).
    cbn [strings_Split_space has_space].
    destruct (Ascii.eqb a space); cbn [orb]; [discriminate |].
    intros Hs. now rewrite IH.
Qed.

(** A message is a command when it starts with "!go" and has a space: the
    first field may be any word that starts with "!go", and the command is
    the field after the first space. [totalCommands] counts such a message
    whether or not the command exists; a handler runs only for one of the
    six command words. Any other message is ignored and not counted. *)
Theorem message_is_a_command_iff (totalCommands : Z) :
  (forall content,
     strings_HasPrefix content "!go" = false ->
     messageReceived totalCommands content = (totalCommands, Ignored)) /\
  (forall content,
     has_space content = false ->
     messageReceived totalCommands content = (totalCommands, Ignored)) /\
  (forall word rest,
     has_space word = false ->
     strings_HasPrefix (word ++ String space rest) "!go" = true ->
     let name := hd EmptyString (strings_Split_space rest) in
     messageReceived totalCommands (word ++ String space rest)
     = (int64 (totalCommands + 1),
        if bool_decide (name ∈ commands)
        then Handler name (word :: strings_Split_space rest)
        else NoCommand name)).
Proof.
  split; [| split].
  - intros content Hprefix. unfold messageReceived. now rewrite Hprefix.
  - intros content Hspace. unfold messageReceived.
    destruct (strings_HasPrefix content "!go"); [| reflexivity].
    rewrite Split_space_no_space by exact Hspace. reflexivity.
  - intros word rest Hword Hprefix name. unfold messageReceived.
    rewrite Hprefix, Split_space_word by exact Hword. cbn [negb length nth].
    pose proof (Split_space_nonempty rest) as Hne.
    destruct (strings_Split_space rest) as [| field fields] eqn:Hfields;
      [congruence |].
    subst name. cbn [hd length nth].
    replace (Z.of_nat (S (S (length fields))) - 1 <? 1) with false
      by (symmetry; apply Z.ltb_ge; lia).
    destruct (bool_decide (field ∈ commands)); reflexivity.
Qed.

Lemma message_is_a_command_iff_witness :
  messageReceived 7 "hello !go help" = (7, Ignored) /\
  messageReceived 7 "!gohelp" = (7, Ignored) /\
  messageReceived 7 ("!gopher" ++ String space "help me")
  = (int64 (7 + 1),
     if bool_decide (hd EmptyString (strings_Split_space "help me") ∈ commands)
     then Handler (hd EmptyString (strings_Split_space "help me"))
                  ("!gopher"%string :: strings_Split_space "help me")
     else NoCommand (hd EmptyString (strings_Split_space "help me"))).
Proof.
  split; [| split].
  - exact (proj1 (message_is_a_command_iff 7) "hello !go help"%string eq_refl).
  - exact (proj1 (proj2 (message_is_a_command_iff 7)) "!gohelp"%string eq_refl).
  - exact (proj2 (proj2 (message_is_a_command_iff 7)) "!gopher"%string
             "help me"%string eq_refl eq_refl).
Defined.

End message_facts.
